(** * pcdsdevices: energy/angle conversion (dccm.py) and the LADM two-rail
      controller (ladm.py)

    Numbers are NumPy/Python double-precision values.  They are modelled as
    the extended reals with a not-a-number element: the special values and the
    way they propagate through arithmetic and comparisons follow IEEE 754,
    while finite results are the exact real results (rounding, overflow and
    the sign of zero are abstracted away). *)

From Stdlib Require Import Reals Lra Psatz List Bool.
From Stdlib Require String.
Import ListNotations.

Abbreviation real := Rdefinitions.R.

(** ** Double-precision values *)

Module Np.

Local Open Scope R_scope.

Inductive float : Type :=
| Fin (x : real)
| PInf
| NInf
| NaN.

Declare Scope np_scope.
Delimit Scope np_scope with np.
Bind Scope np_scope with float.

Definition fneg (a : float) : float :=
  match a with
  | Fin x => Fin (- x)
  | PInf => NInf
  | NInf => PInf
  | NaN => NaN
  end.

Definition fabs (a : float) : float :=
  match a with
  | Fin x => Fin (Rabs x)
  | PInf | NInf => PInf
  | NaN => NaN
  end.

Definition fadd (a b : float) : float :=
  match a, b with
  | NaN, _ | _, NaN => NaN
  | Fin x, Fin y => Fin (x + y)
  | PInf, NInf | NInf, PInf => NaN
  | PInf, _ | _, PInf => PInf
  | NInf, _ | _, NInf => NInf
  end.

Definition fsub (a b : float) : float := fadd a (fneg b).

(** An infinity [i] scaled by the finite factor [x]: the sign follows the
    sign of [x], and [0 * inf] is not a number. *)
Definition scale_inf (x : real) (i : float) : float :=
  if Req_dec_T x 0 then NaN
  else if Rlt_dec 0 x then i else fneg i.

Definition fmul (a b : float) : float :=
  match a, b with
  | NaN, _ | _, NaN => NaN
  | Fin x, Fin y => Fin (x * y)
  | Fin x, i => scale_inf x i
  | i, Fin y => scale_inf y i
  | PInf, PInf | NInf, NInf => PInf
  | PInf, NInf | NInf, PInf => NInf
  end.

(** NumPy scalar division: dividing by zero does not raise, it warns and
    yields an infinity ([0/0] yields not-a-number). *)
Definition fdiv (a b : float) : float :=
  match a, b with
  | NaN, _ | _, NaN => NaN
  | Fin x, Fin y =>
      if Req_dec_T y 0
      then (if Req_dec_T x 0 then NaN else if Rlt_dec 0 x then PInf else NInf)
      else Fin (x / y)
  | Fin _, _ => Fin 0
  | i, Fin y => if Rlt_dec y 0 then fneg i else i
  | _, _ => NaN
  end.

Definition flt (a b : float) : bool :=
  match a, b with
  | NaN, _ | _, NaN => false
  | Fin x, Fin y => if Rlt_dec x y then true else false
  | NInf, NInf => false
  | NInf, _ => true
  | _, NInf => false
  | PInf, _ => false
  | Fin _, PInf => true
  end.

Definition feq (a b : float) : bool :=
  match a, b with
  | Fin x, Fin y => if Req_dec_T x y then true else false
  | PInf, PInf | NInf, NInf => true
  | _, _ => false
  end.

Definition fle (a b : float) : bool := flt a b || feq a b.
Definition fgt (a b : float) : bool := flt b a.
Definition fge (a b : float) : bool := fle b a.

Infix "+" := fadd : np_scope.
Infix "-" := fsub : np_scope.
Infix "*" := fmul : np_scope.
Infix "/" := fdiv : np_scope.
Notation "- a" := (fneg a) : np_scope.
Infix "<?" := flt (at level 70, no associativity) : np_scope.
Infix "<=?" := fle (at level 70, no associativity) : np_scope.
Infix ">?" := fgt (at level 70, no associativity) : np_scope.
Infix ">=?" := fge (at level 70, no associativity) : np_scope.
Infix "==?" := feq (at level 70, no associativity) : np_scope.

(** [np.pi] *)
Definition pi : float := Fin PI.

(** [np.sin], [np.cos], [np.tan]; the tangent is the quotient of sine and
    cosine, so that it is infinite where the cosine is exactly zero. *)
Definition sin (a : float) : float :=
  match a with Fin x => Fin (Rtrigo_def.sin x) | _ => NaN end.

Definition cos (a : float) : float :=
  match a with Fin x => Fin (Rtrigo_def.cos x) | _ => NaN end.

Definition tan (a : float) : float := (sin a / cos a)%np.

(** [np.arctan] *)
Definition arctan (a : float) : float :=
  match a with
  | Fin x => Fin (atan x)
  | PInf => Fin (PI / 2)
  | NInf => Fin (- (PI / 2))
  | NaN => NaN
  end.

(** [np.arcsin]: outside [[-1, 1]] the result is not-a-number (NumPy emits
    a RuntimeWarning and does not raise). *)
Definition arcsin (a : float) : float :=
  match a with
  | Fin x =>
      if Rle_dec (-1) x then (if Rle_dec x 1 then Fin (asin x) else NaN)
      else NaN
  | _ => NaN
  end.

(** [np.rad2deg], [np.deg2rad] *)
Definition rad2deg (a : float) : float := (a * (Fin 180 / pi))%np.
Definition deg2rad (a : float) : float := (a * (pi / Fin 180))%np.

(** Python exceptions that the embedded code can raise. *)
Inductive exn : Type :=
| ZeroDivisionError
| TypeError
| AttributeError.

Inductive result (A : Type) : Type :=
| Ok (a : A)
| Raise (e : exn).
Arguments Ok {A} a.
Arguments Raise {A} e.

(** Division of Python [float]s: a zero divisor raises. *)
Definition pydiv (a b : float) : result float :=
  if (b ==? Fin 0)%np then Raise ZeroDivisionError else Ok (a / b)%np.

End Np.

(** ** dccm.py *)

Module Dccm.
Import Np.
Local Open Scope np_scope.

(* Constants *)
Definition si_111_dspacing : float := Fin 3.1356011499587773.

(* Defaults *)
Definition default_dspacing : float := si_111_dspacing.

(** [DCCMEnergy.energyToSi111BraggAngle]; [energy] is a Python [float], as
    the signature annotates it, so that the first division is Python's.
    (For a NumPy scalar the quotient by zero would be an infinity instead of
    an exception; the two agree at every other energy.) *)
Definition energyToSi111BraggAngle (energy : float) : result float :=
  let dspacing := Fin 3.13560114 in
  match pydiv (Fin 12398.419) energy with
  | Raise e => Raise e
  | Ok q =>
      let bragg_angle := rad2deg (arcsin (q / (Fin 2 * dspacing))) in
      Ok bragg_angle
  end.

(** [DCCMEnergy.thetaToSi111energy]; the divisor is a NumPy scalar. *)
Definition thetaToSi111energy (theta : float) : float :=
  let dspacing := Fin 3.13560114 in
  let energy := Fin 12398.419 / (Fin 2 * dspacing * sin (deg2rad theta)) in
  energy.

End Dccm.

(** The choice of the hutch in [DCCMEnergyAcr.__init__]. *)
Module DccmHutch.
Import String.
Local Open Scope string_scope.

(** [p in s] for Python strings: [p] occurs in [s] at some position. *)
Fixpoint contains (p s : string) : bool :=
  prefix p s ||
  match s with
  | EmptyString => false
  | String _ s' => contains p s'
  end.

(** The value that [__init__] stores in [self.hutch]. *)
Definition select_hutch (prefix : string) (hutch : option string) : string :=
  match hutch with
  | Some h => h
  | None =>
      if contains "XPP" prefix then "XPP"
      else if contains "XCS" prefix then "XCS"
      else "TST"
  end.

End DccmHutch.

(** ** ladm.py *)

Module Ladm.
Import Np.
Local Open Scope np_scope.

(** [x ** 2] *)
Definition pow2 (a : float) : float := a * a.

Definition alpha_r : float := Fin 63 * pi / Fin 180.
Definition r : float := Fin 2960.
Definition R : float := Fin 6735.
Definition alpha_cos : float := cos (Fin 27 * pi / Fin 180).

(** The value of [alpha_r] as a real number (63 degrees in radians). *)
Definition alpha : real := (63 * PI / 180)%R.

Definition ThetaToMotors (theta : float) (samz_offset : float)
  : float * float * float :=
  let theta := theta * pi / Fin 180 in
  let x1 := r * sin theta / (sin alpha_r * sin (alpha_r + theta)) in
  let x2 := R * sin theta / (sin alpha_r * sin (alpha_r + theta)) in
  let dz := r / sin alpha_r - x1 * sin alpha_r / sin theta in
  let dz := if theta ==? Fin 0 then Fin 0 else dz in
  (x1, x2, dz).

Definition y1ToGamma (y1 : float) : float :=
  let gamma := arctan (y1 / r) in
  let gamma := gamma * Fin 180 / pi in
  gamma.

Definition y2ToGamma (y2 : float) : float :=
  let gamma := arctan (y2 / R) in
  let gamma := gamma * Fin 180 / pi in
  gamma.

Definition GammaToMotors (gamma : float) : float * float * float :=
  let gamma := gamma * pi / Fin 180 in
  let y1 := r * tan gamma in
  let y2 := R * tan gamma in
  let dy := y2 - y1 in
  (y1, y2, dy).

Definition x1ToTheta (x1 : float) (samz_offset : float) : float :=
  let theta :=
    arctan (x1 * pow2 (sin alpha_r) /
            (r - samz_offset * alpha_cos - x1 * sin (Fin 2 * alpha_r) / Fin 2)) in
  let theta := theta * Fin 180 / pi in
  theta.

Definition x2ToTheta (x2 : float) (samz_offset : float) : float :=
  let theta :=
    arctan (x2 * pow2 (sin alpha_r) /
            (R - samz_offset * alpha_cos - x2 * sin (Fin 2 * alpha_r) / Fin 2)) in
  let theta := theta * Fin 180 / pi in
  theta.

Definition xTox12 (x : float) : float :=
  let x12 := x / sin alpha_r in
  x12.

Definition xToz (x : float) : float :=
  let z := x / tan alpha_r in
  z.

Definition MotorsTox (x1 x2 z : float) : float * float * float :=
  let x_x1 := x1 * sin alpha_r in
  let x_x2 := x2 * sin alpha_r in
  let x_z := z * tan alpha_r in
  (x_x1, x_x2, x_z).

(** *** The controller and its collaborators *)

(** The five real axes of the mechanism. *)
Inductive axis : Type := X1 | X2 | Y1 | Y2 | Z.

(** What [self.theta.position()] hands back: the [np.nan] object itself
    (the only value for which [is np.nan] holds) or a number. *)
Inductive reading : Type :=
| NanObject
| Value (v : float).

(** What [wmTheta] returns: a 4-tuple, a number, or the [np.nan] object. *)
Inductive readback : Type :=
| Detail (theta1 theta2 samz_offset ca_samz_offset : float)
| Angle (theta : float)
| Undefined.

(** Texts that the controller prints, logs or returns, with the values that
    are formatted into them. *)
Inductive message : Type :=
| MsgMovingZ (z : float)
| MsgMovingX (x1 x2 : float)
| MsgDone
| MsgPosition (p : reading)
| MsgShouldMove (theta1 x2_th1 z_th1 theta2 x1_th2 z_th2 : float)
| MsgSampleZ (theta1 samz_offset theta ca_samz_offset : float)
| MsgGamma (gamma y1 y2 : float)
| MsgOutsideLimit (name : String.string).

(** Calls that leave the controller, in the order they are made. *)
Inductive event : Type :=
| Mv (a : axis) (target : float)
| Mvr (a : axis) (delta : float)
| Wait (a : axis)
| ThetaWait
| ThetaPvPut (v : readback)
| Print (m : message)
| LogDebug (m : message)
| StatusTable.

(** The axis collaborators ([IMS] motors, the [theta] virtual motor and the
    [theta_pv] signal) are external: any implementation of this interface
    over any state [world] will do.  The virtual motor [theta], which
    [__init__] leaves at [None], is taken to be attached. *)
Class Axes (world : Type) : Type := {
  ax_wm : axis -> world -> float;
  ax_mv : axis -> float -> world -> world;
  ax_mvr : axis -> float -> world -> world;
  ax_wait : axis -> world -> world;
  ax_theta_position : world -> reading;
  ax_theta_wait : world -> world;
  ax_theta_pv_put : readback -> world -> world
}.

(** [self]: the [XT] virtual motor, of which the modelled methods read
    only the [name], and the two cached soft limits.  All three are [None]
    after [__init__]; [XT] is attached from outside, the limits are set by
    the setters. *)
Record LADM : Type := {
  XT : option String.string;
  lowlimX : option float;
  hilimX : option float
}.

Definition init : LADM := {| XT := None; lowlimX := None; hilimX := None |}.

Definition _set_lowlimX (self : LADM) (value : float) : LADM :=
  {| XT := XT self; lowlimX := Some value; hilimX := hilimX self |}.

Definition _set_hilimX (self : LADM) (value : float) : LADM :=
  {| XT := XT self; lowlimX := lowlimX self; hilimX := Some value |}.

Definition _get_lowlimX (self : LADM) : option float := lowlimX self.
Definition _get_hilimX (self : LADM) : option float := hilimX self.

Section Controller.

Context {world : Type} {axes : Axes world}.

(** A method run: from the collaborators' state to a result (or a raised
    exception), their new state and the calls made on the way. *)
Definition M (A : Type) : Type := world -> result A * world * list event.

Definition ret {A} (a : A) : M A := fun w => (Ok a, w, []).

Definition raise {A} (e : exn) : M A := fun w => (Raise e, w, []).

Definition bind {A B} (m : M A) (k : A -> M B) : M B :=
  fun w =>
    match m w with
    | (Ok a, w1, l1) => let '(b, w2, l2) := k a w1 in (b, w2, l1 ++ l2)
    | (Raise e, w1, l1) => (Raise e, w1, l1)
    end.

Notation "x <- m ;; k" := (bind m (fun x => k))
  (at level 61, m at next level, right associativity).
Notation "m ;; k" := (bind m (fun _ => k))
  (at level 61, right associativity).

Definition emit (e : event) : M unit := fun w => (Ok tt, w, [e]).

Definition wm (a : axis) : M float := fun w => (Ok (ax_wm a w), w, []).
Definition mv (a : axis) (target : float) : M unit :=
  fun w => (Ok tt, ax_mv a target w, [Mv a target]).
Definition mvr (a : axis) (delta : float) : M unit :=
  fun w => (Ok tt, ax_mvr a delta w, [Mvr a delta]).
Definition wait (a : axis) : M unit :=
  fun w => (Ok tt, ax_wait a w, [Wait a]).
Definition theta_position : M reading :=
  fun w => (Ok (ax_theta_position w), w, []).
Definition theta_wait : M unit :=
  fun w => (Ok tt, ax_theta_wait w, [ThetaWait]).
Definition theta_pv_put (v : readback) : M unit :=
  fun w => (Ok tt, ax_theta_pv_put v w, [ThetaPvPut v]).
Definition print (m : message) : M unit := emit (Print m).
Definition logger_debug (m : message) : M unit := emit (LogDebug m).

(** [status] only reads and prints a table; it is one event, and what the
    table shows is not part of the model. *)
Definition status (self : LADM) : M unit := emit StatusTable.

Definition waitAll (self : LADM) : M unit :=
  wait Z ;;
  wait X1 ;;
  wait X2.

Definition wmTheta (self : LADM) (samz_offset : float) : M readback :=
  x1_now <- wm X1 ;;
  let theta1 := x1ToTheta x1_now samz_offset in
  x2_now <- wm X2 ;;
  let theta2 := x2ToTheta x2_now samz_offset in
  let tolerance := Fin 0.01 in
  if samz_offset >? Fin 0 then
    x2a <- wm X2 ;;
    x1a <- wm X1 ;;
    let thetar := arctan ((x2a - x1a) / (R - r)) in
    let theta := thetar * Fin 180 / pi in
    x1b <- wm X1 ;;
    x1c <- wm X1 ;;
    let ca_samz_offset :=
      - ((x1b * pow2 (sin alpha_r) / tan thetar) - r
         + x1c * sin (Fin 2 * alpha_r) / Fin 2) / alpha_cos in
    print (MsgSampleZ theta1 samz_offset theta ca_samz_offset) ;;
    ret (Detail theta1 theta2 samz_offset ca_samz_offset)
  else if fabs (theta1 - theta2) <? tolerance then
    ret (Angle theta1)
  else
    ret Undefined.

(** [__theta_movement].  The [KeyboardInterrupt] handler is not part of the
    model (the interrupt is asynchronous); the [finally] clause runs at the
    end of the [try] body. *)
Definition theta_movement (self : LADM) (theta samz_offset : float) : M unit :=
  let '(x1_var, x2_var, z_var) := ThetaToMotors theta samz_offset in
  z_now <- wm Z ;;
  (if z_now <? z_var then
     print (MsgMovingZ z_var) ;;
     mv Z z_var ;;
     wait Z ;;
     print MsgDone ;;
     print (MsgMovingX x1_var x2_var) ;;
     mv X1 x1_var ;;
     mv X2 x2_var ;;
     waitAll self ;;
     print MsgDone
   else
     print (MsgMovingX x1_var x2_var) ;;
     mv X1 x1_var ;;
     mv X2 x2_var ;;
     wait X1 ;;
     wait X2 ;;
     print (MsgMovingZ z_var) ;;
     mv Z z_var ;;
     waitAll self ;;
     print MsgDone) ;;
  now <- wmTheta self (Fin 0) ;;
  theta_pv_put now.

Definition moveTheta (self : LADM) (theta samz_offset : float)
  : M (option message) :=
  p <- theta_position ;;
  print (MsgPosition p) ;;
  theta_now <- theta_position ;;
  match theta_now with
  | NanObject =>
      x1_now <- wm X1 ;;
      let theta1 := x1ToTheta x1_now samz_offset in
      x2_now <- wm X2 ;;
      let theta2 := x2ToTheta x2_now samz_offset in
      let '(x1_th1, x2_th1, z_th1) := ThetaToMotors theta1 (Fin 0) in
      let '(x1_th2, x2_th2, z_th2) := ThetaToMotors theta2 (Fin 0) in
      let message := MsgShouldMove theta1 x2_th1 z_th1 theta2 x1_th2 z_th2 in
      ret (Some message)
  | Value theta_now =>
      (if fabs (theta - theta_now) <=? Fin 28 then
         theta_movement self theta samz_offset
       else
         let theta_1 := (theta + theta_now) / Fin 2 in
         theta_movement self theta_1 samz_offset ;;
         theta_wait ;;
         theta_movement self theta samz_offset) ;;
      status self ;;
      ret None
  end.

Definition wmGamma (self : LADM) : M (float * message) :=
  y1_now <- wm Y1 ;;
  let gamma1 := y1ToGamma y1_now in
  y2_now <- wm Y2 ;;
  let gamma2 := y1ToGamma y2_now in
  let gamma := gamma2 - gamma1 in
  y1_msg <- wm Y1 ;;
  y2_msg <- wm Y2 ;;
  let message := MsgGamma gamma y1_msg y2_msg in
  print message ;;
  ret (gamma, message).

(** [moveX].  Comparing a number with [None] raises [TypeError]; [or] does
    not evaluate its second operand when the first one holds.  The text of
    the refusal is built from [self.XT.name] before it is logged, which
    raises [AttributeError] while [XT] is [None]. *)
Definition moveX (self : LADM) (x : float) : M unit :=
  match lowlimX self with
  | None => raise TypeError
  | Some lowlim =>
      refuse <-
        (if x <=? lowlim then ret true
         else match hilimX self with
              | None => raise TypeError
              | Some hilim => ret (x >=? hilim)
              end) ;;
      if refuse : bool then
        match XT self with
        | None => raise AttributeError
        | Some name => logger_debug (MsgOutsideLimit name)
        end
      else
        let x1_var := xTox12 x in
        let x2_var := x1_var in
        let z_var := xToz x in
        z_now <- wm Z ;;
        if z_var >? z_now then
          print (MsgMovingZ z_var) ;;
          mv Z z_var ;;
          wait Z ;;
          print (MsgMovingX x1_var x2_var) ;;
          mv X1 x1_var ;;
          mv X2 x2_var
        else
          print (MsgMovingX x1_var x2_var) ;;
          mv X1 x1_var ;;
          mv X2 x2_var ;;
          wait X1 ;;
          wait X2 ;;
          print (MsgMovingZ z_var)
  end.

Definition tweakH (self : LADM) (x : float) : M unit :=
  let x1_var := xTox12 x in
  let x2_var := xTox12 x in
  let z_var := xToz x in
  z_now <- wm Z ;;
  if z_var >? z_now then
    print (MsgMovingZ z_var) ;;
    mvr Z (z_var - z_now) ;;
    wait Z ;;
    print MsgDone ;;
    print (MsgMovingX x1_var x2_var) ;;
    mvr X1 x1_var ;;
    mvr X2 x2_var ;;
    print MsgDone
  else
    print (MsgMovingX x1_var x2_var) ;;
    mvr X1 x1_var ;;
    mvr X2 x2_var ;;
    wait X1 ;;
    wait X2 ;;
    print MsgDone ;;
    print (MsgMovingZ z_var) ;;
    mvr Z (z_var - z_now) ;;
    print MsgDone.

End Controller.

(** The result, the final state and the calls of a run. *)
Definition outcome {world A} (x : result A * world * list event) : result A :=
  fst (fst x).
Definition final {world A} (x : result A * world * list event) : world :=
  snd (fst x).
Definition calls {world A} (x : result A * world * list event) : list event :=
  snd x.

(** The calls that go to the real axes. *)
Definition is_axis_call (e : event) : bool :=
  match e with
  | Mv _ _ | Mvr _ _ | Wait _ => true
  | _ => false
  end.

Definition axis_calls (l : list event) : list event := filter is_axis_call l.

(** The calls that command a motion. *)
Definition is_move (e : event) : bool :=
  match e with
  | Mv _ _ | Mvr _ _ => true
  | _ => false
  end.

Definition moves (l : list event) : list event := filter is_move l.

(** *** A stub collaborator: every axis jumps to its target at once *)

Record stub : Type := {
  pos : axis -> float;
  theta_now : reading
}.

Definition axis_eqb (a b : axis) : bool :=
  match a, b with
  | X1, X1 | X2, X2 | Y1, Y1 | Y2, Y2 | Z, Z => true
  | _, _ => false
  end.

Definition stub_set (a : axis) (v : float) (w : stub) : stub :=
  {| pos := fun b => if axis_eqb a b then v else pos w b;
     theta_now := theta_now w |}.

#[export] Instance stub_axes : Axes stub := {|
  ax_wm := fun a w => pos w a;
  ax_mv := stub_set;
  ax_mvr := fun a d w => stub_set a (pos w a + d) w;
  ax_wait := fun _ w => w;
  ax_theta_position := theta_now;
  ax_theta_wait := fun w => w;
  ax_theta_pv_put := fun _ w => w
|}.

(** A controller whose [XT] virtual motor has been attached. *)
Module StubName.
Import String.
Definition XT_name : string := "XT"%string.
End StubName.

Definition attached : LADM :=
  {| XT := Some StubName.XT_name; lowlimX := None; hilimX := None |}.

(** All axes at [z0], the virtual theta motor reading [t]. *)
Definition stub_at (z0 : float) (t : reading) : stub :=
  {| pos := fun _ => z0; theta_now := t |}.

(** *** Further methods *)

(** [ca_theta]: the returned 5-tuple, and the rows of the table it prints
    (one row, holding the same five values). *)
Definition ca_row : Type := float * float * float * float * float.

Definition ca_theta (self : LADM) (cal_theta samz_offset : float)
  : ca_row * list ca_row :=
  let cal_thetarad := cal_theta * pi / Fin 180 in
  let cal_x1 :=
    (r - samz_offset * alpha_cos) *
    sin cal_thetarad / (sin alpha_r *
    sin (alpha_r + cal_thetarad)) in
  let cal_x2 :=
    (R - samz_offset * alpha_cos) *
    sin cal_thetarad / (sin alpha_r *
    sin (alpha_r + cal_thetarad)) in
  let cal_dz :=
    (r - samz_offset * alpha_cos) /
    sin alpha_r - cal_x1 *
    sin alpha_r / sin cal_thetarad in
  let caTable := [(cal_theta, cal_x1, cal_x2, cal_dz, samz_offset)] in
  ((cal_theta, cal_x1, cal_x2, cal_dz, samz_offset), caTable).

(** The configured deadband of an axis: [EpicsSignal(prefix + '.RDBD').get()]. *)
Class Deadbands (world : Type) : Type := {
  ax_rdbd : axis -> world -> float
}.

Section Horizontal.

Context {world : Type} {axes : Axes world} {deadbands : Deadbands world}.

Notation "x <- m ;; k" := (bind m (fun x => k))
  (at level 61, m at next level, right associativity).

Definition rdbd (a : axis) : M float := fun w => (Ok (ax_rdbd a w), w, []).

(** [wmX]: the horizontal position read back from x1, or the [np.nan]
    object. *)
Definition wmX (self : LADM) : M reading :=
  x1_var <- wm X1 ;;
  x2_var <- wm X2 ;;
  z_var <- wm Z ;;
  let '(x_x1, x_x2, x_z) := MotorsTox x1_var x2_var z_var in
  db_x1 <- rdbd X1 ;;
  db_x2 <- rdbd X2 ;;
  let tolerance := db_x1 + db_x2 in
  if fabs (x_x1 - x_x2) <=? tolerance then
    let z_theo := xToz x_x1 in
    db_z <- rdbd Z ;;
    if fabs (z_var - z_theo) <? Fin 2 * db_z then
      ret (Value x_x1)
    else
      ret NanObject
  else
    ret NanObject.

End Horizontal.

(** The stub with one deadband [d] for every axis. *)
Definition stub_deadbands (d : float) : Deadbands stub :=
  {| ax_rdbd := fun _ _ => d |}.

End Ladm.

(** * Properties *)

(** ** Facts about the number model *)

Module NpFacts.
Import Np.
Local Open Scope R_scope.

Lemma fdiv_fin (x y : real) : y <> 0 -> fdiv (Fin x) (Fin y) = Fin (x / y).
Proof.
  intros Hy. unfold fdiv. destruct (Req_dec_T y 0); [contradiction | reflexivity].
Qed.

Lemma fdiv_zero_zero : fdiv (Fin 0) (Fin 0) = NaN.
Proof.
  unfold fdiv. destruct (Req_dec_T 0 0) as [_ | H]; [reflexivity | now elim H].
Qed.

Lemma flt_fin (x y : real) : flt (Fin x) (Fin y) = true <-> x < y.
Proof.
  unfold flt. destruct (Rlt_dec x y); split; intros; try easy.
Qed.

Lemma flt_fin_false (x y : real) : flt (Fin x) (Fin y) = false <-> y <= x.
Proof.
  unfold flt. destruct (Rlt_dec x y); split; intros; try easy; lra.
Qed.

Lemma feq_fin (x y : real) : feq (Fin x) (Fin y) = true <-> x = y.
Proof.
  unfold feq. destruct (Req_dec_T x y); split; intros; try easy.
Qed.

Lemma fle_fin (x y : real) : fle (Fin x) (Fin y) = true <-> x <= y.
Proof.
  unfold fle. rewrite orb_true_iff, flt_fin, feq_fin. lra.
Qed.

Lemma fle_fin_false (x y : real) : fle (Fin x) (Fin y) = false <-> y < x.
Proof.
  unfold fle. rewrite orb_false_iff, flt_fin_false.
  unfold feq. destruct (Req_dec_T x y); split; intros H; try lra.
  all: try (destruct H; discriminate); try (split; [lra | reflexivity]).
Qed.

(** A comparison that holds excludes the strict converse, also at the
    infinities; not-a-number compares false with everything. *)
Lemma fle_not_flt (a b : float) : fle a b = true -> flt b a = false.
Proof.
  destruct a as [x | | |], b as [y | | |]; try reflexivity; try discriminate.
  rewrite fle_fin, flt_fin_false. trivial.
Qed.


Lemma flt_fle (a b : float) : flt a b = true -> fle a b = true.
Proof. unfold fle. intros ->. reflexivity. Qed.

Lemma arcsin_fin (x : real) : -1 <= x <= 1 -> arcsin (Fin x) = Fin (asin x).
Proof.
  intros [Hl Hu]. unfold arcsin.
  destruct (Rle_dec (-1) x); [| contradiction].
  destruct (Rle_dec x 1); [reflexivity | contradiction].
Qed.

Lemma arcsin_out (x : real) : x < -1 \/ 1 < x -> arcsin (Fin x) = NaN.
Proof.
  intros H. unfold arcsin.
  destruct (Rle_dec (-1) x); [| reflexivity].
  destruct (Rle_dec x 1); [lra | reflexivity].
Qed.

Lemma pydiv_fin (x y : real) :
  y <> 0 -> pydiv (Fin x) (Fin y) = Ok (Fin (x / y)).
Proof.
  intros Hy. unfold pydiv, feq.
  destruct (Req_dec_T y 0); [contradiction |]. now rewrite fdiv_fin.
Qed.

Lemma pydiv_zero (a : float) : pydiv a (Fin 0) = Raise ZeroDivisionError.
Proof.
  unfold pydiv, feq. destruct (Req_dec_T 0 0) as [_ | H]; [reflexivity | now elim H].
Qed.

End NpFacts.

(** ** dccm.py *)

Module DccmProps.
Import Np NpFacts Dccm.
Local Open Scope R_scope.

Lemma energyToSi111BraggAngle_fin (e : real) :
  e <> 0 ->
  energyToSi111BraggAngle (Fin e) =
  Ok (rad2deg (arcsin (Fin (12398.419 / e / (2 * 3.13560114))))).
Proof.
  intros He. unfold energyToSi111BraggAngle.
  rewrite pydiv_fin by assumption. cbn [fmul].
  rewrite fdiv_fin by lra. reflexivity.
Qed.

Lemma rad2deg_fin (x : real) : rad2deg (Fin x) = Fin (x * (180 / PI)).
Proof.
  unfold rad2deg, pi. rewrite fdiv_fin by apply PI_neq0. reflexivity.
Qed.

Lemma deg2rad_fin (x : real) : deg2rad (Fin x) = Fin (x * (PI / 180)).
Proof.
  unfold deg2rad, pi. rewrite fdiv_fin by lra. reflexivity.
Qed.

Lemma thetaToSi111energy_fin (t : real) :
  Rtrigo_def.sin (t * (PI / 180)) <> 0 ->
  thetaToSi111energy (Fin t) =
  Fin (12398.419 / (2 * 3.13560114 * Rtrigo_def.sin (t * (PI / 180)))).
Proof.
  intros Hs. unfold thetaToSi111energy.
  rewrite deg2rad_fin. cbn [Np.sin fmul].
  rewrite fdiv_fin; [reflexivity |].
  apply Rmult_integral_contrapositive_currified; [lra | assumption].
Qed.

(** C3: for every energy [e > 0] whose arcsine argument lies in [[-1, 1]],
    converting to the Bragg angle and back gives [e] again: the two directions
    are inverse to each other, so the relative error is within 1e-9. *)
Theorem energy_angle_roundtrip (e : real) :
  0 < e ->
  -1 <= 12398.419 / (e * 2 * 3.13560114) <= 1 ->
  exists (a : float) (e' : real),
    energyToSi111BraggAngle (Fin e) = Ok a /\
    thetaToSi111energy a = Fin e' /\
    e' = e /\
    Rabs (e' - e) <= 1e-9 * Rabs e.
Proof.
  intros He Harg.
  set (y := 12398.419 / e / (2 * 3.13560114)).
  assert (Hy : y = 12398.419 / (e * 2 * 3.13560114)) by (unfold y; field; lra).
  assert (Hpos : 0 < y).
  { unfold y. apply Rdiv_lt_0_compat; [| lra].
    apply Rdiv_lt_0_compat; lra. }
  exists (Fin (asin y * (180 / PI))), e.
  split; [| split; [| split]].
  - rewrite energyToSi111BraggAngle_fin by lra. fold y.
    rewrite arcsin_fin by (rewrite Hy; assumption).
    now rewrite rad2deg_fin.
  - assert (Hrad : asin y * (180 / PI) * (PI / 180) = asin y)
      by (field; apply PI_neq0).
    assert (Hsin : Rtrigo_def.sin (asin y * (180 / PI) * (PI / 180)) = y)
      by (rewrite Hrad; apply sin_asin; rewrite Hy; assumption).
    rewrite thetaToSi111energy_fin by (rewrite Hsin; lra).
    rewrite Hsin. f_equal. unfold y. field. lra.
  - reflexivity.
  - replace (e - e) with 0 by ring. rewrite Rabs_R0.
    apply Rmult_le_pos; [lra | apply Rabs_pos].
Qed.

Lemma energy_angle_roundtrip_witness :
  exists (a : float) (e' : real),
    energyToSi111BraggAngle (Fin 8000) = Ok a /\
    thetaToSi111energy a = Fin e' /\
    e' = 8000 /\
    Rabs (e' - 8000) <= 1e-9 * Rabs 8000.
Proof.
  apply (energy_angle_roundtrip 8000); lra.
Defined.

(** C7 as stated fails: at [energy = 1] the arcsine argument is about 1977,
    far outside [[-1, 1]], and the conversion raises nothing. *)
Lemma energy_out_of_domain_not_raised :
  ~ (forall e : real,
        12398.419 / (e * 2 * 3.13560114) < -1 \/
        1 < 12398.419 / (e * 2 * 3.13560114) ->
        exists x : exn, energyToSi111BraggAngle (Fin e) = Raise x).
Proof.
  intros H. destruct (H 1) as [x Hx].
  - right. lra.
  - rewrite energyToSi111BraggAngle_fin in Hx by lra. discriminate.
Qed.

(** C7, amended: for every non-zero energy whose arcsine argument lies outside
    [[-1, 1]] the conversion raises nothing and returns not-a-number; the
    argument is not clamped to the nearest valid angle. *)
Theorem energy_out_of_domain_nan (e : real) :
  e <> 0 ->
  12398.419 / (e * 2 * 3.13560114) < -1 \/
  1 < 12398.419 / (e * 2 * 3.13560114) ->
  energyToSi111BraggAngle (Fin e) = Ok NaN.
Proof.
  intros He Harg.
  rewrite energyToSi111BraggAngle_fin by assumption.
  replace (12398.419 / e / (2 * 3.13560114))
    with (12398.419 / (e * 2 * 3.13560114)) by (field; lra).
  rewrite arcsin_out by assumption. reflexivity.
Qed.

Lemma energy_out_of_domain_nan_witness :
  energyToSi111BraggAngle (Fin 1) = Ok NaN.
Proof.
  apply (energy_out_of_domain_nan 1); lra.
Defined.

(** C9: both conversions compute with the literal 3.13560114 and not with the
    module constant [si_111_dspacing] = 3.1356011499587773.  At 90 degrees the
    angle-to-energy conversion returns 12398.419 / (2 * 3.13560114), which is
    not the value obtained with the documented spacing. *)
Theorem dspacing_literal_not_default :
  si_111_dspacing = Fin 3.1356011499587773 /\
  default_dspacing = si_111_dspacing /\
  thetaToSi111energy (Fin 90) = Fin (12398.419 / (2 * 3.13560114)) /\
  thetaToSi111energy (Fin 90) <>
    (Fin 12398.419 / (Fin 2 * default_dspacing * Np.sin (deg2rad (Fin 90))))%np /\
  energyToSi111BraggAngle (Fin 12398.419) =
    Ok (rad2deg (arcsin (Fin (1 / (2 * 3.13560114))))) /\
  energyToSi111BraggAngle (Fin 12398.419) <>
    Ok (rad2deg (arcsin (Fin 12398.419 / Fin 12398.419
                         / (Fin 2 * default_dspacing))%np)).
Proof.
  assert (Hsin : Rtrigo_def.sin (90 * (PI / 180)) = 1).
  { replace (90 * (PI / 180)) with (PI / 2) by field. apply sin_PI2. }
  assert (H90 : thetaToSi111energy (Fin 90) = Fin (12398.419 / (2 * 3.13560114))).
  { rewrite thetaToSi111energy_fin by (rewrite Hsin; lra).
    rewrite Hsin. f_equal. lra. }
  assert (HE : energyToSi111BraggAngle (Fin 12398.419) =
               Ok (rad2deg (arcsin (Fin (1 / (2 * 3.13560114)))))).
  { rewrite energyToSi111BraggAngle_fin by lra.
    do 4 f_equal. lra. }
  repeat split; try assumption.
  - rewrite H90. unfold default_dspacing, si_111_dspacing.
    rewrite deg2rad_fin. cbn [Np.sin fmul]. rewrite Hsin.
    rewrite fdiv_fin by lra.
    intros Heq. injection Heq as Heq. lra.
  - rewrite HE. unfold default_dspacing, si_111_dspacing.
    cbn [fmul]. rewrite !fdiv_fin by lra.
    rewrite !arcsin_fin by lra.
    rewrite !rad2deg_fin.
    intros Heq. injection Heq as Heq.
    apply Rmult_eq_reg_r in Heq.
    2:{ apply Rmult_integral_contrapositive_currified;
        [lra | apply Rinv_neq_0_compat, PI_neq0]. }
    apply (f_equal Rtrigo_def.sin) in Heq.
    rewrite !sin_asin in Heq by lra. lra.
Qed.

End DccmProps.

(** ** ladm.py: the coordinate conversions *)

Module LadmProps.
Import Np NpFacts Ladm.
Local Open Scope R_scope.

Lemma alpha_r_fin : alpha_r = Fin alpha.
Proof.
  unfold alpha_r, pi, alpha. cbn [fmul]. now rewrite fdiv_fin by lra.
Qed.

Lemma alpha_bounds : 0 < alpha < PI / 2.
Proof. unfold alpha. pose proof PI_RGT_0. lra. Qed.

Lemma sin_alpha_pos : 0 < Rtrigo_def.sin alpha.
Proof.
  pose proof alpha_bounds. pose proof PI_RGT_0.
  apply sin_gt_0; lra.
Qed.

Lemma cos_alpha_pos : 0 < Rtrigo_def.cos alpha.
Proof.
  pose proof alpha_bounds. apply cos_gt_0; lra.
Qed.

Lemma deg_to_rad_fin (t : real) : (Fin t * pi / Fin 180)%np = Fin (t * PI / 180).
Proof. unfold pi. cbn [fmul]. now rewrite fdiv_fin by lra. Qed.

Lemma rad_to_deg_fin (x : real) : (Fin x * Fin 180 / pi)%np = Fin (x * 180 / PI).
Proof. unfold pi. cbn [fmul]. now rewrite fdiv_fin by apply PI_neq0. Qed.

(** The formula for [dz] on its own is degenerate at [theta = 0]: it
    divides zero by zero. *)
Lemma dz_formula_degenerate :
  (r / Np.sin alpha_r - Fin 0 * Np.sin alpha_r / Np.sin (Fin 0))%np = NaN.
Proof.
  rewrite alpha_r_fin. unfold r. cbn [Np.sin fmul].
  rewrite sin_0, Rmult_0_l, fdiv_zero_zero.
  pose proof sin_alpha_pos. rewrite fdiv_fin by lra. reflexivity.
Qed.

Lemma ThetaToMotors_at_zero (samz_offset : float) :
  ThetaToMotors (Fin 0) samz_offset = (Fin 0, Fin 0, Fin 0).
Proof.
  unfold ThetaToMotors.
  rewrite deg_to_rad_fin, alpha_r_fin.
  replace (0 * PI / 180) with 0 by lra.
  unfold r, R. cbn [Np.sin fmul fadd].
  rewrite sin_0, Rplus_0_r, !Rmult_0_r.
  pose proof sin_alpha_pos as Hs.
  assert (Hss : Rtrigo_def.sin alpha * Rtrigo_def.sin alpha <> 0) by nra.
  rewrite !fdiv_fin by assumption.
  replace (feq (Fin 0) (Fin 0)) with true
    by (symmetry; apply feq_fin; reflexivity).
  unfold Rdiv. now rewrite Rmult_0_l.
Qed.

(** C6: at [theta = 0] both rail targets and the depth offset are exactly
    zero, whatever the sample offset: the guard on [theta == 0] replaces the
    not-a-number that the [dz] formula yields there. *)
Theorem ThetaToMotors_zero (samz_offset : float) :
  ThetaToMotors (Fin 0) samz_offset = (Fin 0, Fin 0, Fin 0) /\
  (r / Np.sin alpha_r - Fin 0 * Np.sin alpha_r / Np.sin (Fin 0))%np = NaN.
Proof.
  split; [apply ThetaToMotors_at_zero | apply dz_formula_degenerate].
Qed.

(** *** Rails from theta and back *)

Section RailInverse.

(** [rho] is the radius of a rail ([r] or [R]), [t] an angle in degrees. *)
Variables rho t : real.
Hypothesis rho_pos : 0 < rho.
Hypothesis t_range : 0 <= t < 90.

Let theta : real := t * PI / 180.
Let x : real :=
  rho * Rtrigo_def.sin theta
  / (Rtrigo_def.sin alpha * Rtrigo_def.sin (alpha + theta)).
Let den : real :=
  rho - 0 * Rtrigo_def.cos (27 * PI / 180)
  - x * Rtrigo_def.sin (2 * alpha) / 2.

Lemma theta_bounds : 0 <= theta < PI / 2.
Proof. unfold theta. pose proof PI_RGT_0. split; nra. Qed.

Lemma sin_sum_pos : 0 < Rtrigo_def.sin (alpha + theta).
Proof.
  pose proof theta_bounds. pose proof alpha_bounds as Ha. pose proof PI_RGT_0.
  unfold alpha in *. apply sin_gt_0; lra.
Qed.

Lemma rail_divisor_neq_0 :
  Rtrigo_def.sin alpha * Rtrigo_def.sin (alpha + theta) <> 0.
Proof.
  pose proof sin_alpha_pos. pose proof sin_sum_pos. nra.
Qed.

Lemma rail_den_eq :
  den = rho * Rtrigo_def.sin alpha * Rtrigo_def.cos theta
        / Rtrigo_def.sin (alpha + theta).
Proof.
  pose proof sin_alpha_pos as Hs. pose proof sin_sum_pos as Hd.
  unfold den, x. rewrite sin_2a.
  rewrite sin_plus in *. field. split; lra.
Qed.

Lemma rail_den_pos : 0 < den.
Proof.
  rewrite rail_den_eq.
  pose proof sin_alpha_pos. pose proof sin_sum_pos. pose proof theta_bounds.
  assert (0 < Rtrigo_def.cos theta) by (apply cos_gt_0; lra).
  apply Rdiv_lt_0_compat; [| assumption].
  apply Rmult_lt_0_compat; [apply Rmult_lt_0_compat |]; assumption.
Qed.

Lemma rail_ratio_tan :
  x * (Rtrigo_def.sin alpha * Rtrigo_def.sin alpha) / den = Rtrigo1.tan theta.
Proof.
  rewrite rail_den_eq. unfold x, Rtrigo1.tan.
  pose proof sin_alpha_pos. pose proof sin_sum_pos. pose proof theta_bounds.
  assert (0 < Rtrigo_def.cos theta) by (apply cos_gt_0; lra).
  field. repeat split; lra.
Qed.

Lemma rail_atan_deg :
  atan (x * (Rtrigo_def.sin alpha * Rtrigo_def.sin alpha) / den) * 180 / PI = t.
Proof.
  rewrite rail_ratio_tan. pose proof theta_bounds.
  rewrite atan_tan by lra. unfold theta. field. apply PI_neq0.
Qed.

End RailInverse.

Lemma ThetaToMotors_fin (t : real) (samz_offset : float) :
  0 < t < 90 ->
  let theta := t * PI / 180 in
  let d := Rtrigo_def.sin alpha * Rtrigo_def.sin (alpha + theta) in
  ThetaToMotors (Fin t) samz_offset =
  (Fin (2960 * Rtrigo_def.sin theta / d),
   Fin (6735 * Rtrigo_def.sin theta / d),
   Fin (2960 / Rtrigo_def.sin alpha
        - 2960 * Rtrigo_def.sin theta / d * Rtrigo_def.sin alpha
          / Rtrigo_def.sin theta)).
Proof.
  intros Ht theta d. unfold ThetaToMotors.
  rewrite deg_to_rad_fin, alpha_r_fin. fold theta.
  unfold r, R. cbn [Np.sin fmul fadd].
  assert (Hd : d <> 0) by (apply rail_divisor_neq_0; lra).
  fold d. rewrite !fdiv_fin by assumption. cbn [fmul].
  assert (Hth : 0 < theta < PI / 2)
    by (unfold theta; pose proof PI_RGT_0; split; nra).
  assert (Hst : 0 < Rtrigo_def.sin theta)
    by (pose proof PI_RGT_0; apply sin_gt_0; lra).
  pose proof sin_alpha_pos.
  rewrite !fdiv_fin by lra.
  replace (feq (Fin theta) (Fin 0)) with false; [reflexivity |].
  symmetry. unfold feq. destruct (Req_dec_T theta 0); [lra | reflexivity].
Qed.

Lemma x1ToTheta_fin (x1 : real) :
  2960 - 0 * Rtrigo_def.cos (27 * PI / 180)
  - x1 * Rtrigo_def.sin (2 * alpha) / 2 <> 0 ->
  x1ToTheta (Fin x1) (Fin 0) =
  Fin (atan (x1 * (Rtrigo_def.sin alpha * Rtrigo_def.sin alpha)
             / (2960 - 0 * Rtrigo_def.cos (27 * PI / 180)
                - x1 * Rtrigo_def.sin (2 * alpha) / 2)) * 180 / PI).
Proof.
  intros Hden. unfold x1ToTheta, alpha_cos, pow2.
  rewrite deg_to_rad_fin, alpha_r_fin. unfold r.
  cbn [Np.sin Np.cos fmul fadd fsub fneg].
  rewrite (fdiv_fin _ 2) by lra. cbn [fadd fneg].
  rewrite fdiv_fin by exact Hden.
  cbn [arctan]. now rewrite rad_to_deg_fin.
Qed.

Lemma x2ToTheta_fin (x2 : real) :
  6735 - 0 * Rtrigo_def.cos (27 * PI / 180)
  - x2 * Rtrigo_def.sin (2 * alpha) / 2 <> 0 ->
  x2ToTheta (Fin x2) (Fin 0) =
  Fin (atan (x2 * (Rtrigo_def.sin alpha * Rtrigo_def.sin alpha)
             / (6735 - 0 * Rtrigo_def.cos (27 * PI / 180)
                - x2 * Rtrigo_def.sin (2 * alpha) / 2)) * 180 / PI).
Proof.
  intros Hden. unfold x2ToTheta, alpha_cos, pow2.
  rewrite deg_to_rad_fin, alpha_r_fin. unfold R.
  cbn [Np.sin Np.cos fmul fadd fsub fneg].
  rewrite (fdiv_fin _ 2) by lra. cbn [fadd fneg].
  rewrite fdiv_fin by exact Hden.
  cbn [arctan]. now rewrite rad_to_deg_fin.
Qed.

(** Each rail position computed for an angle strictly between 0 and 90
    degrees is inverted to that angle. *)
Lemma rails_invert (t : real) :
  0 < t < 90 ->
  x1ToTheta (fst (fst (ThetaToMotors (Fin t) (Fin 0)))) (Fin 0) = Fin t /\
  x2ToTheta (snd (fst (ThetaToMotors (Fin t) (Fin 0)))) (Fin 0) = Fin t.
Proof.
  intros Ht. rewrite ThetaToMotors_fin by assumption. cbn [fst snd].
  assert (Ht' : 0 <= t < 90) by lra.
  split.
  - pose proof (rail_den_pos 2960 t ltac:(lra) Ht') as Hden.
    rewrite x1ToTheta_fin by lra.
    f_equal. apply (rail_atan_deg 2960 t); lra.
  - pose proof (rail_den_pos 6735 t ltac:(lra) Ht') as Hden.
    rewrite x2ToTheta_fin by lra.
    f_equal. apply (rail_atan_deg 6735 t); lra.
Qed.

(** C4: for theta in {5, 10, 27, 45} degrees, the rail positions given by
    [ThetaToMotors] (sample offset 0) are each inverted, by [x1ToTheta] and by
    [x2ToTheta], to an angle within 0.01 degrees of theta. *)
Theorem theta_rails_roundtrip (t : real) :
  In t [5; 10; 27; 45] ->
  exists t1 t2 : real,
    x1ToTheta (fst (fst (ThetaToMotors (Fin t) (Fin 0)))) (Fin 0) = Fin t1 /\
    x2ToTheta (snd (fst (ThetaToMotors (Fin t) (Fin 0)))) (Fin 0) = Fin t2 /\
    Rabs (t1 - t) < 0.01 /\
    Rabs (t2 - t) < 0.01.
Proof.
  intros Hin.
  assert (Ht : 0 < t < 90).
  { cbn [In] in Hin. destruct Hin as [<- | [<- | [<- | [<- | []]]]]; lra. }
  destruct (rails_invert t Ht) as [H1 H2].
  exists t, t. repeat split; try assumption.
  all: replace (t - t) with 0 by ring; rewrite Rabs_R0; lra.
Qed.

Lemma theta_rails_roundtrip_witness :
  exists t1 t2 : real,
    x1ToTheta (fst (fst (ThetaToMotors (Fin 27) (Fin 0)))) (Fin 0) = Fin t1 /\
    x2ToTheta (snd (fst (ThetaToMotors (Fin 27) (Fin 0)))) (Fin 0) = Fin t2 /\
    Rabs (t1 - 27) < 0.01 /\
    Rabs (t2 - 27) < 0.01.
Proof.
  apply (theta_rails_roundtrip 27). cbn [In]. tauto.
Defined.

(** ** ladm.py: the controller *)

Section ControllerProps.

Context {world : Type} {axes : Axes world}.

Lemma bind_ok {A B} (m : M A) (k : A -> M B) (w w1 : world) (a : A)
  (l1 : list event) :
  m w = (Ok a, w1, l1) ->
  bind m k w = (outcome (k a w1), final (k a w1), l1 ++ calls (k a w1)).
Proof.
  intros H. unfold bind. rewrite H.
  destruct (k a w1) as [[b w2] l2]. reflexivity.
Qed.

(** With a sample offset that is not greater than 0, [wmTheta] makes no
    call and decides on the two angles alone. *)
Lemma wmTheta_no_offset (self : LADM) (samz_offset : float) (w : world) :
  (samz_offset >? Fin 0)%np = false ->
  wmTheta self samz_offset w =
  (Ok (if (fabs (x1ToTheta (ax_wm X1 w) samz_offset
                 - x2ToTheta (ax_wm X2 w) samz_offset) <? Fin 0.01)%np
       then Angle (x1ToTheta (ax_wm X1 w) samz_offset)
       else Undefined),
   w, []).
Proof.
  intros Hoff. unfold wmTheta.
  cbv [bind wm]. rewrite Hoff.
  destruct (flt _ _); reflexivity.
Qed.

Lemma zero_not_gt_zero : (Fin 0 >? Fin 0)%np = false.
Proof. unfold fgt. apply flt_fin_false. lra. Qed.

(** C5: with a sample offset that is not greater than 0, the readback is the
    angle derived from x1 when the two derived angles differ by less than 0.01
    degrees, and the undefined value in every other case; it makes no call
    and leaves the axes as they are. *)
Theorem wmTheta_agree_or_undefined (self : LADM) (samz_offset : float)
  (w : world) :
  (samz_offset >? Fin 0)%np = false ->
  let theta1 := x1ToTheta (ax_wm X1 w) samz_offset in
  let theta2 := x2ToTheta (ax_wm X2 w) samz_offset in
  ((fabs (theta1 - theta2) <? Fin 0.01)%np = true ->
   wmTheta self samz_offset w = (Ok (Angle theta1), w, [])) /\
  ((fabs (theta1 - theta2) <? Fin 0.01)%np = false ->
   wmTheta self samz_offset w = (Ok Undefined, w, [])) /\
  (forall a b : real, theta1 = Fin a -> theta2 = Fin b ->
     (Rabs (a - b) < 0.01 ->
      wmTheta self samz_offset w = (Ok (Angle (Fin a)), w, [])) /\
     (0.01 <= Rabs (a - b) ->
      wmTheta self samz_offset w = (Ok Undefined, w, []))).
Proof.
  intros Hoff theta1 theta2.
  pose proof (wmTheta_no_offset self samz_offset w Hoff) as H.
  fold theta1 theta2 in H.
  split; [| split].
  - intros Hlt. now rewrite Hlt in H.
  - intros Hge. now rewrite Hge in H.
  - intros a b Ha Hb. rewrite Ha, Hb in H.
    cbn [fsub fneg fadd fabs] in H. split; intros Hab.
    + replace (flt _ _) with true in H; [exact H |].
      symmetry. apply flt_fin. exact Hab.
    + replace (flt _ _) with false in H; [exact H |].
      symmetry. apply flt_fin_false. exact Hab.
Qed.

(** The axis calls of one sequenced theta move, for rail targets [x1_var],
    [x2_var] and depth target [z_var]. *)
Lemma theta_movement_run (self : LADM) (theta samz_offset : float) (w : world) :
  let x1_var := fst (fst (ThetaToMotors theta samz_offset)) in
  let x2_var := snd (fst (ThetaToMotors theta samz_offset)) in
  let z_var := snd (ThetaToMotors theta samz_offset) in
  outcome (theta_movement self theta samz_offset w) = Ok tt /\
  axis_calls (calls (theta_movement self theta samz_offset w)) =
  if (ax_wm Z w <? z_var)%np
  then [Mv Z z_var; Wait Z; Mv X1 x1_var; Mv X2 x2_var;
        Wait Z; Wait X1; Wait X2]
  else [Mv X1 x1_var; Mv X2 x2_var; Wait X1; Wait X2;
        Mv Z z_var; Wait Z; Wait X1; Wait X2].
Proof.
  unfold theta_movement.
  destruct (ThetaToMotors theta samz_offset) as [[x1_var x2_var] z_var].
  cbn [fst snd].
  cbv [bind wm print emit mv wait waitAll theta_pv_put].
  destruct (flt (ax_wm Z w) z_var);
    rewrite (wmTheta_no_offset _ _ _ zero_not_gt_zero);
    split; reflexivity.
Qed.

(** C1: when the required z is greater than the current z, the z move and its
    wait come before the x1 and x2 moves; when it is less than or equal, the
    x1 and x2 moves and both their waits come before the z move. *)
Theorem theta_movement_order (self : LADM) (theta samz_offset : float)
  (w : world) :
  let x1_var := fst (fst (ThetaToMotors theta samz_offset)) in
  let x2_var := snd (fst (ThetaToMotors theta samz_offset)) in
  let z_var := snd (ThetaToMotors theta samz_offset) in
  ((z_var >? ax_wm Z w)%np = true ->
   axis_calls (calls (theta_movement self theta samz_offset w)) =
   [Mv Z z_var; Wait Z; Mv X1 x1_var; Mv X2 x2_var;
    Wait Z; Wait X1; Wait X2]) /\
  ((z_var <=? ax_wm Z w)%np = true ->
   axis_calls (calls (theta_movement self theta samz_offset w)) =
   [Mv X1 x1_var; Mv X2 x2_var; Wait X1; Wait X2;
    Mv Z z_var; Wait Z; Wait X1; Wait X2]).
Proof.
  intros x1_var x2_var z_var.
  destruct (theta_movement_run self theta samz_offset w) as [_ H].
  fold x1_var x2_var z_var in H.
  split.
  - unfold fgt. intros Hgt. now rewrite Hgt in H.
  - intros Hle. apply fle_not_flt in Hle. now rewrite Hle in H.
Qed.

(** A sequenced theta move never raises. *)
Lemma theta_movement_eta (self : LADM) (theta samz_offset : float) (w : world) :
  theta_movement self theta samz_offset w =
  (Ok tt,
   final (theta_movement self theta samz_offset w),
   calls (theta_movement self theta samz_offset w)).
Proof.
  destruct (theta_movement_run self theta samz_offset w) as [Hok _].
  destruct (theta_movement self theta samz_offset w) as [[o w1] l1].
  cbn [outcome final calls fst snd] in *. now subst o.
Qed.



(** What [wmGamma] computes: both heights go through [y1ToGamma]. *)
Lemma wmGamma_run (self : LADM) (w : world) :
  wmGamma self w =
  (let gamma := (y1ToGamma (ax_wm Y2 w) - y1ToGamma (ax_wm Y1 w))%np in
   let message := MsgGamma gamma (ax_wm Y1 w) (ax_wm Y2 w) in
   (Ok (gamma, message), w, [Print message])).
Proof. reflexivity. Qed.

(** The relative move: no limit is consulted, every run commands the three
    axes. *)
Lemma tweakH_run (self : LADM) (x : float) (w : world) :
  outcome (tweakH self x w) = Ok tt /\
  moves (calls (tweakH self x w)) =
  (if (xToz x >? ax_wm Z w)%np
   then [Mvr Z (xToz x - ax_wm Z w)%np; Mvr X1 (xTox12 x); Mvr X2 (xTox12 x)]
   else [Mvr X1 (xTox12 x); Mvr X2 (xTox12 x); Mvr Z (xToz x - ax_wm Z w)%np]).
Proof.
  unfold tweakH. cbv [bind wm print emit mvr wait].
  destruct (fgt (xToz x) (ax_wm Z w)); split; reflexivity.
Qed.

(** What the refusal path of [moveX] does: it commands nothing; it logs
    and returns when [XT] is attached, and raises when it is not. *)
Lemma moveX_refusal (self : LADM) (lowlim : float) (x : float) (w : world) :
  lowlimX self = Some lowlim ->
  (x <=? lowlim)%np = true \/
  (exists hilim : float, hilimX self = Some hilim /\ (x >=? hilim)%np = true) ->
  moveX self x w =
  match XT self with
  | Some name => (Ok tt, w, [LogDebug (MsgOutsideLimit name)])
  | None => (Raise AttributeError, w, [])
  end.
Proof.
  intros Hlo Hout. unfold moveX. rewrite Hlo.
  destruct Hout as [Hle | [hilim [Hhi Hge]]].
  - rewrite Hle. cbv [bind ret raise logger_debug emit].
    destruct (XT self); reflexivity.
  - destruct (fle x lowlim).
    + cbv [bind ret raise logger_debug emit]. destruct (XT self); reflexivity.
    + rewrite Hhi. cbv [bind ret raise logger_debug emit]. rewrite Hge.
      destruct (XT self); reflexivity.
Qed.

(** C8, amended: an absolute target outside the window of the two cached
    limits makes no axis call and leaves the axes as they are; with the [XT]
    virtual motor attached it is refused with one debug log entry and no
    exception (with [XT] still [None], building the log text raises
    [AttributeError]).  The relative move looks at no limit: for every
    target and every controller state it commands x1, x2 and z. *)
Theorem moveX_refuses_tweakH_unchecked (self : LADM) (x : float) (w : world) :
  (forall lowlim hilim : float,
      lowlimX self = Some lowlim ->
      hilimX self = Some hilim ->
      (x <? lowlim)%np = true \/ (x >? hilim)%np = true ->
      moves (calls (moveX self x w)) = [] /\
      axis_calls (calls (moveX self x w)) = [] /\
      final (moveX self x w) = w /\
      (forall name : String.string, XT self = Some name ->
         moveX self x w = (Ok tt, w, [LogDebug (MsgOutsideLimit name)])) /\
      (XT self = None -> moveX self x w = (Raise AttributeError, w, []))) /\
  outcome (tweakH self x w) = Ok tt /\
  length (moves (calls (tweakH self x w))) = 3%nat /\
  (In (Mvr X1 (xTox12 x)) (moves (calls (tweakH self x w))) /\
   In (Mvr X2 (xTox12 x)) (moves (calls (tweakH self x w))) /\
   In (Mvr Z (xToz x - ax_wm Z w)%np) (moves (calls (tweakH self x w)))) /\
  (forall other : LADM, tweakH other x w = tweakH self x w).
Proof.
  split.
  - intros lowlim hilim Hlo Hhi Hout.
    assert (HmoveX := moveX_refusal self lowlim x w Hlo).
    rewrite HmoveX.
    2:{ destruct Hout as [Hlt | Hgt].
        - left. apply flt_fle. exact Hlt.
        - right. exists hilim. split; [exact Hhi |].
          unfold fge. apply flt_fle. exact Hgt. }
    destruct (XT self) as [name |].
    + repeat (split; [reflexivity |]). split.
      * now intros name' [= <-].
      * discriminate.
    + repeat (split; [reflexivity |]). split.
      * discriminate.
      * reflexivity.
  - destruct (tweakH_run self x w) as [Hok Hmv].
    split; [exact Hok |].
    split; [| split].
    + rewrite Hmv. destruct (fgt (xToz x) (ax_wm Z w)); reflexivity.
    + rewrite Hmv.
      destruct (fgt (xToz x) (ax_wm Z w)); cbn [In]; tauto.
    + intros other. reflexivity.
Qed.

End ControllerProps.

Lemma theta_movement_order_witness :
  axis_calls (calls (theta_movement init (Fin 0) (Fin 0)
                       (stub_at (Fin (-1)) NanObject))) =
  [Mv Z (Fin 0); Wait Z; Mv X1 (Fin 0); Mv X2 (Fin 0);
   Wait Z; Wait X1; Wait X2] /\
  axis_calls (calls (theta_movement init (Fin 0) (Fin 0)
                       (stub_at (Fin 1) NanObject))) =
  [Mv X1 (Fin 0); Mv X2 (Fin 0); Wait X1; Wait X2;
   Mv Z (Fin 0); Wait Z; Wait X1; Wait X2].
Proof.
  split.
  - pose proof (theta_movement_order init (Fin 0) (Fin 0)
                  (stub_at (Fin (-1)) NanObject)) as H.
    rewrite ThetaToMotors_at_zero in H. cbn [fst snd] in H.
    apply H. unfold fgt. apply flt_fin. lra.
  - pose proof (theta_movement_order init (Fin 0) (Fin 0)
                  (stub_at (Fin 1) NanObject)) as H.
    rewrite ThetaToMotors_at_zero in H. cbn [fst snd] in H.
    apply H. apply fle_fin. lra.
Defined.

Lemma wmTheta_agree_or_undefined_witness :
  wmTheta init (Fin 0) (stub_at (Fin 0) NanObject) =
  (Ok (Angle (Fin 0)), stub_at (Fin 0) NanObject, []).
Proof.
  pose proof (wmTheta_agree_or_undefined init (Fin 0)
                (stub_at (Fin 0) NanObject) zero_not_gt_zero) as [_ [_ H]].
  assert (Hden : forall rho : real, 0 < rho ->
            rho - 0 * Rtrigo_def.cos (27 * PI / 180)
            - 0 * Rtrigo_def.sin (2 * alpha) / 2 <> 0) by (intros; lra).
  assert (Hz : forall d : real,
            atan (0 * (Rtrigo_def.sin alpha * Rtrigo_def.sin alpha) / d)
            * 180 / PI = 0).
  { intros d. unfold Rdiv. rewrite !Rmult_0_l, atan_0. ring. }
  destruct (H 0 0) as [Hlt _].
  - cbn [ax_wm stub_axes stub_at pos].
    rewrite x1ToTheta_fin by (apply Hden; lra). now rewrite Hz.
  - cbn [ax_wm stub_axes stub_at pos].
    rewrite x2ToTheta_fin by (apply Hden; lra). now rewrite Hz.
  - apply Hlt. replace (0 - 0) with 0 by ring. rewrite Rabs_R0. lra.
Defined.


Lemma moveX_refuses_tweakH_unchecked_witness :
  let self := _set_hilimX (_set_lowlimX attached (Fin 0)) (Fin 10) in
  let w := stub_at (Fin 0) NanObject in
  moveX self (Fin 20) w =
  (Ok tt, w, [LogDebug (MsgOutsideLimit StubName.XT_name)]) /\
  axis_calls (calls (moveX self (Fin 20) w)) = [] /\
  length (moves (calls (tweakH self (Fin 20) w))) = 3%nat.
Proof.
  intros self w.
  destruct (moveX_refuses_tweakH_unchecked self (Fin 20) w)
    as [Hrefuse [_ [Hlen _]]].
  destruct (Hrefuse (Fin 0) (Fin 10) eq_refl eq_refl)
    as [_ [Hnone [_ [Hlog _]]]].
  - right. unfold fgt. apply flt_fin. lra.
  - split; [apply Hlog; reflexivity | split; assumption].
Defined.

(** C8 as stated fails: a controller as [__init__] leaves it, with both
    limits set and nothing else done, does not complete the refusal of an
    out-of-window target: it raises [AttributeError]. *)
Lemma moveX_refusal_raises_unattached :
  ~ (forall (self : LADM) (lowlim hilim x : float) (w : stub),
        lowlimX self = Some lowlim ->
        hilimX self = Some hilim ->
        (x <? lowlim)%np = true \/ (x >? hilim)%np = true ->
        outcome (moveX self x w) = Ok tt).
Proof.
  intros H.
  specialize (H (_set_hilimX (_set_lowlimX init (Fin 0)) (Fin 10))
                (Fin 0) (Fin 10) (Fin 20) (stub_at (Fin 0) NanObject)
                eq_refl eq_refl).
  rewrite (moveX_refusal _ (Fin 0)) in H.
  - cbn [XT _set_hilimX _set_lowlimX init outcome fst] in H.
    assert (Hgt : (Fin 20 >? Fin 10)%np = true)
      by (unfold fgt; apply flt_fin; lra).
    specialize (H (or_intror Hgt)). discriminate H.
  - reflexivity.
  - right. exists (Fin 10). split; [reflexivity |].
    unfold fge. apply fle_fin. lra.
Qed.

(** *** The vertical angle *)

Lemma y1ToGamma_fin (y : real) :
  y1ToGamma (Fin y) = Fin (atan (y / 2960) * 180 / PI).
Proof.
  unfold y1ToGamma, r. rewrite fdiv_fin by lra.
  cbn [arctan]. apply rad_to_deg_fin.
Qed.

Lemma y2ToGamma_fin (y : real) :
  y2ToGamma (Fin y) = Fin (atan (y / 6735) * 180 / PI).
Proof.
  unfold y2ToGamma, R. rewrite fdiv_fin by lra.
  cbn [arctan]. apply rad_to_deg_fin.
Qed.

Lemma y1ToGamma_2960 : y1ToGamma (Fin 2960) = Fin 45.
Proof.
  rewrite y1ToGamma_fin. f_equal.
  replace (2960 / 2960) with 1 by lra. rewrite atan_1.
  field. apply PI_neq0.
Qed.

Lemma y1ToGamma_0 : y1ToGamma (Fin 0) = Fin 0.
Proof.
  rewrite y1ToGamma_fin. f_equal.
  replace (0 / 2960) with 0 by lra. rewrite atan_0. unfold Rdiv. ring.
Qed.

Lemma y2ToGamma_2960_lt_45 :
  exists g : real, y2ToGamma (Fin 2960) = Fin g /\ g < 45.
Proof.
  exists (atan (2960 / 6735) * 180 / PI). split; [apply y2ToGamma_fin |].
  assert (Hlt : atan (2960 / 6735) < PI / 4).
  { rewrite <- atan_1. apply atan_increasing. lra. }
  pose proof PI_RGT_0 as Hpi.
  apply Rmult_lt_reg_r with PI; [exact Hpi |].
  unfold Rdiv. rewrite Rmult_assoc, Rinv_l by lra. lra.
Qed.

(** C10 does not hold of the code: [wmGamma] sends the long-rail height [y2]
    through [y1ToGamma], so that both angles use the short radius.  With
    [y1 = 0] and [y2 = 2960] it returns 45 degrees, where the per-rail
    formula with [y2ToGamma] gives less than 45. *)
Theorem wmGamma_long_rail_uses_short_radius :
  let w := stub_set Y2 (Fin 2960) (stub_at (Fin 0) NanObject) in
  wmGamma init w =
  (Ok ((y1ToGamma (Fin 2960) - y1ToGamma (Fin 0))%np,
       MsgGamma (y1ToGamma (Fin 2960) - y1ToGamma (Fin 0))%np
                (Fin 0) (Fin 2960)),
   w,
   [Print (MsgGamma (y1ToGamma (Fin 2960) - y1ToGamma (Fin 0))%np
                    (Fin 0) (Fin 2960))]) /\
  (y1ToGamma (Fin 2960) - y1ToGamma (Fin 0))%np = Fin 45 /\
  (y2ToGamma (Fin 2960) - y1ToGamma (Fin 0))%np <> Fin 45.
Proof.
  intros w. split; [| split].
  - rewrite wmGamma_run. reflexivity.
  - rewrite y1ToGamma_2960, y1ToGamma_0. cbn [fsub fneg fadd].
    f_equal. lra.
  - destruct y2ToGamma_2960_lt_45 as [g [Hg Hlt]].
    rewrite Hg, y1ToGamma_0. cbn [fsub fneg fadd].
    intros Heq. injection Heq as Heq. lra.
Qed.

End LadmProps.

(** * Further properties *)

(** ** dccm.py *)

Module DccmExtra.
Import Np NpFacts Dccm DccmProps.
Local Open Scope R_scope.

Lemma fdiv_pos_zero (x : real) : 0 < x -> fdiv (Fin x) (Fin 0) = PInf.
Proof.
  intros Hx. unfold fdiv.
  destruct (Req_dec_T 0 0) as [_ | H]; [| now elim H].
  destruct (Req_dec_T x 0); [lra |].
  destruct (Rlt_dec 0 x); [reflexivity | contradiction].
Qed.

Lemma thetaToSi111energy_0 : thetaToSi111energy (Fin 0) = PInf.
Proof.
  unfold thetaToSi111energy. rewrite deg2rad_fin. cbn [Np.sin fmul].
  rewrite Rmult_0_l, sin_0, Rmult_0_r. apply fdiv_pos_zero. lra.
Qed.

Lemma energyToSi111BraggAngle_PInf : energyToSi111BraggAngle PInf = Ok (Fin 0).
Proof.
  unfold energyToSi111BraggAngle, pydiv. cbn [feq fmul].
  change (fdiv (Fin 12398.419) PInf) with (Fin 0).
  rewrite fdiv_fin by lra.
  replace (0 / (2 * 3.13560114)) with 0 by lra.
  rewrite arcsin_fin by lra. rewrite asin_0, rad2deg_fin.
  now rewrite Rmult_0_l.
Qed.

Lemma deg_in_quadrant (t : real) :
  0 < t <= 90 -> 0 < t * (PI / 180) <= PI / 2.
Proof. intros Ht. pose proof PI_RGT_0. split; nra. Qed.

Lemma sin_deg_pos (t : real) :
  0 < t <= 90 -> 0 < Rtrigo_def.sin (t * (PI / 180)) <= 1.
Proof.
  intros Ht. pose proof (deg_in_quadrant t Ht). pose proof PI_RGT_0.
  split; [apply sin_gt_0; lra | apply SIN_bound].
Qed.

(** Bragg angle to energy and back: for every angle from 0 to 90 degrees
    the energy computed from the angle converts back to that angle; at 0 the
    way leads through an infinite energy. *)
Theorem angle_energy_roundtrip (t : real) :
  0 <= t <= 90 ->
  energyToSi111BraggAngle (thetaToSi111energy (Fin t)) = Ok (Fin t).
Proof.
  intros [H0 H90]. destruct (Req_dec_T t 0) as [-> | Hne].
  - rewrite thetaToSi111energy_0. apply energyToSi111BraggAngle_PInf.
  - assert (Ht : 0 < t <= 90) by lra.
    pose proof (sin_deg_pos t Ht) as [Hs Hs1].
    pose proof (deg_in_quadrant t Ht) as Hq.
    rewrite thetaToSi111energy_fin by lra.
    set (s := Rtrigo_def.sin (t * (PI / 180))) in *.
    assert (He : 0 < 12398.419 / (2 * 3.13560114 * s)).
    { apply Rdiv_lt_0_compat; [lra |]. apply Rmult_lt_0_compat; lra. }
    rewrite energyToSi111BraggAngle_fin by lra.
    replace (12398.419 / (12398.419 / (2 * 3.13560114 * s)) / (2 * 3.13560114))
      with s by (field; lra).
    rewrite arcsin_fin by lra. rewrite rad2deg_fin.
    unfold s. rewrite asin_sin by lra.
    do 2 f_equal. field. apply PI_neq0.
Qed.

Lemma angle_energy_roundtrip_witness :
  energyToSi111BraggAngle (thetaToSi111energy (Fin 45)) = Ok (Fin 45).
Proof. apply (angle_energy_roundtrip 45). lra. Defined.

(** The sign of the energy follows the sign of the angle: positive and
    finite on (0, 90], infinite at 0, negative and finite on [-90, 0). *)
Theorem thetaToSi111energy_sign (t : real) :
  (0 < t <= 90 -> exists e : real, thetaToSi111energy (Fin t) = Fin e /\ 0 < e) /\
  (t = 0 -> thetaToSi111energy (Fin t) = PInf) /\
  (-90 <= t < 0 -> exists e : real, thetaToSi111energy (Fin t) = Fin e /\ e < 0).
Proof.
  split; [| split].
  - intros Ht. pose proof (sin_deg_pos t Ht) as [Hs _].
    eexists. split; [apply thetaToSi111energy_fin; lra |].
    apply Rdiv_lt_0_compat; [lra |]. apply Rmult_lt_0_compat; lra.
  - intros ->. apply thetaToSi111energy_0.
  - intros Ht.
    assert (Hs : 0 < Rtrigo_def.sin (- t * (PI / 180)))
      by (apply sin_deg_pos; lra).
    replace (- t * (PI / 180)) with (- (t * (PI / 180))) in Hs by ring.
    rewrite sin_neg in Hs.
    eexists. split; [apply thetaToSi111energy_fin; lra |].
    set (s := Rtrigo_def.sin (t * (PI / 180))) in *.
    replace (12398.419 / (2 * 3.13560114 * s))
      with (- (12398.419 / (2 * 3.13560114 * (- s)))) by (field; lra).
    assert (0 < 12398.419 / (2 * 3.13560114 * - s)).
    { apply Rdiv_lt_0_compat; [lra |]. apply Rmult_lt_0_compat; lra. }
    lra.
Qed.

Lemma thetaToSi111energy_sign_witness :
  (exists e : real, thetaToSi111energy (Fin 30) = Fin e /\ 0 < e) /\
  thetaToSi111energy (Fin 0) = PInf /\
  (exists e : real, thetaToSi111energy (Fin (-30)) = Fin e /\ e < 0).
Proof.
  destruct (thetaToSi111energy_sign 30) as [Hp _].
  destruct (thetaToSi111energy_sign 0) as [_ [Hz _]].
  destruct (thetaToSi111energy_sign (-30)) as [_ [_ Hn]].
  split; [apply Hp; lra | split; [apply Hz; reflexivity | apply Hn; lra]].
Defined.

Lemma asin_lt (x y : real) : -1 <= x -> x < y -> y <= 1 -> asin x < asin y.
Proof.
  intros Hx Hxy Hy.
  pose proof (asin_bound x) as [Hx1 Hx2].
  pose proof (asin_bound y) as [Hy1 Hy2].
  apply sin_increasing_0; try assumption.
  rewrite !sin_asin by lra. exact Hxy.
Qed.

(** Bragg's law is monotone: of two positive energies in the valid domain the
    higher one has the smaller angle, and every such angle lies in (0, 90]. *)
Theorem bragg_angle_decreasing (e1 e2 : real) :
  0 < e1 < e2 ->
  12398.419 / (e1 * 2 * 3.13560114) <= 1 ->
  exists a1 a2 : real,
    energyToSi111BraggAngle (Fin e1) = Ok (Fin a1) /\
    energyToSi111BraggAngle (Fin e2) = Ok (Fin a2) /\
    0 < a2 < a1 /\ a1 <= 90.
Proof.
  intros [H1 H12] Harg.
  set (y1 := 12398.419 / e1 / (2 * 3.13560114)).
  set (y2 := 12398.419 / e2 / (2 * 3.13560114)).
  assert (Hy1 : y1 <= 1).
  { unfold y1. replace (12398.419 / e1 / (2 * 3.13560114))
      with (12398.419 / (e1 * 2 * 3.13560114)) by (field; lra). exact Harg. }
  assert (Hy2 : 0 < y2).
  { unfold y2. apply Rdiv_lt_0_compat; [| lra]. apply Rdiv_lt_0_compat; lra. }
  assert (Hlt : y2 < y1).
  { unfold y1, y2. apply Rmult_lt_compat_r; [lra |].
    unfold Rdiv. apply Rmult_lt_compat_l; [lra |].
    apply Rinv_lt_contravar; [nra | lra]. }
  pose proof PI_RGT_0 as Hpi.
  assert (Hk : 0 < 180 / PI) by (apply Rdiv_lt_0_compat; lra).
  exists (asin y1 * (180 / PI)), (asin y2 * (180 / PI)).
  split; [| split; [| split; [split |]]].
  - rewrite energyToSi111BraggAngle_fin by lra. fold y1.
    rewrite arcsin_fin by lra. apply f_equal, rad2deg_fin.
  - rewrite energyToSi111BraggAngle_fin by lra. fold y2.
    rewrite arcsin_fin by lra. apply f_equal, rad2deg_fin.
  - apply Rmult_lt_0_compat; [| exact Hk].
    rewrite <- asin_0. apply asin_lt; lra.
  - apply Rmult_lt_compat_r; [exact Hk |]. apply asin_lt; lra.
  - pose proof (asin_bound y1) as [_ Hb].
    replace 90 with (PI / 2 * (180 / PI)) by (field; lra).
    apply Rmult_le_compat_r; lra.
Qed.

Lemma bragg_angle_decreasing_witness :
  exists a1 a2 : real,
    energyToSi111BraggAngle (Fin 4000) = Ok (Fin a1) /\
    energyToSi111BraggAngle (Fin 25000) = Ok (Fin a2) /\
    0 < a2 < a1 /\ a1 <= 90.
Proof. apply (bragg_angle_decreasing 4000 25000); lra. Defined.

End DccmExtra.


(** The hutch chosen at construction. *)
Module HutchExtra.
Import String DccmHutch.
Local Open Scope string_scope.

Lemma prefix_app (p b : string) : prefix p (p ++ b) = true.
Proof.
  induction p as [| c p IH]; cbn.
  - destruct b; reflexivity.
  - destruct (Ascii.ascii_dec c c) as [_ | H]; [exact IH | now elim H].
Qed.

Lemma contains_app (p a b : string) : contains p (a ++ p ++ b) = true.
Proof.
  induction a as [| c a IH].
  - cbn [append]. destruct (p ++ b) eqn:E; cbn [contains];
      rewrite <- E, prefix_app; reflexivity.
  - cbn [append contains]. rewrite IH. apply Bool.orb_true_r.
Qed.

(** A hutch given explicitly is kept whatever the prefix is.  Without one, a
    prefix with XPP somewhere in it gives XPP, also when XCS occurs in it as
    well; one with XCS and no XPP gives XCS; the result is always one of XPP,
    XCS and TST. *)
Theorem select_hutch_cases (prefix a b h : string) :
  select_hutch prefix (Some h) = h /\
  select_hutch (a ++ "XPP" ++ b) None = "XPP" /\
  (contains "XPP" (a ++ "XCS" ++ b) = false ->
   select_hutch (a ++ "XCS" ++ b) None = "XCS") /\
  (select_hutch prefix None = "XPP" \/
   select_hutch prefix None = "XCS" \/
   select_hutch prefix None = "TST").
Proof.
  split; [reflexivity |].
  split; [unfold select_hutch; now rewrite contains_app |].
  split.
  - intros H. unfold select_hutch. now rewrite H, contains_app.
  - unfold select_hutch.
    destruct (contains "XPP" prefix); [now left |].
    destruct (contains "XCS" prefix); [right; now left | right; now right].
Qed.

Lemma select_hutch_cases_witness :
  select_hutch "XCS:MON:XPP:07A" None = "XPP" /\
  select_hutch "XCS:MON:MPZ:07A" None = "XCS".
Proof.
  destruct (select_hutch_cases "" "XCS:MON:" ":07A" "") as [_ [Hxpp _]].
  destruct (select_hutch_cases "" "" ":MON:MPZ:07A" "") as [_ [_ [Hxcs _]]].
  split; [exact Hxpp | apply Hxcs; reflexivity].
Defined.

End HutchExtra.

(** ** ladm.py: conversions *)

Module LadmExtra.
Import Np NpFacts Ladm LadmProps.
Local Open Scope R_scope.

Lemma tan_alpha_r_fin :
  Np.tan alpha_r = Fin (Rtrigo_def.sin alpha / Rtrigo_def.cos alpha).
Proof.
  rewrite alpha_r_fin. unfold Np.tan. cbn [Np.sin Np.cos].
  pose proof cos_alpha_pos. now rewrite fdiv_fin by lra.
Qed.

Lemma deg_open_quadrant (g : real) :
  -90 < g < 90 -> - (PI / 2) < g * PI / 180 < PI / 2.
Proof. intros Hg. pose proof PI_RGT_0. split; nra. Qed.

Lemma GammaToMotors_fin (g : real) :
  -90 < g < 90 ->
  GammaToMotors (Fin g) =
  (Fin (2960 * Rtrigo1.tan (g * PI / 180)),
   Fin (6735 * Rtrigo1.tan (g * PI / 180)),
   Fin (3775 * Rtrigo1.tan (g * PI / 180))).
Proof.
  intros Hg. pose proof (deg_open_quadrant g Hg) as Hq.
  assert (Hc : 0 < Rtrigo_def.cos (g * PI / 180)) by (apply cos_gt_0; lra).
  unfold GammaToMotors. rewrite deg_to_rad_fin.
  unfold Np.tan, r, R. cbn [Np.sin Np.cos].
  rewrite fdiv_fin by lra. cbn [fmul fsub fneg fadd].
  unfold Rtrigo1.tan. apply f_equal2; [reflexivity |].
  f_equal. ring.
Qed.

(** Heights from the vertical angle and back: for every angle strictly
    between -90 and 90 degrees, [y1ToGamma] inverts the short-rail height and
    [y2ToGamma] the long-rail height given by [GammaToMotors], and the third
    component is [(R - r) * tan gamma]. *)
Theorem gamma_heights_roundtrip (g : real) :
  -90 < g < 90 ->
  y1ToGamma (fst (fst (GammaToMotors (Fin g)))) = Fin g /\
  y2ToGamma (snd (fst (GammaToMotors (Fin g)))) = Fin g /\
  snd (GammaToMotors (Fin g)) = Fin ((6735 - 2960) * Rtrigo1.tan (g * PI / 180)).
Proof.
  intros Hg. pose proof (deg_open_quadrant g Hg) as Hq.
  rewrite GammaToMotors_fin by assumption. cbn [fst snd].
  split; [| split].
  - rewrite y1ToGamma_fin. f_equal.
    replace (2960 * Rtrigo1.tan (g * PI / 180) / 2960)
      with (Rtrigo1.tan (g * PI / 180)) by (field; lra).
    rewrite atan_tan by lra. field. apply PI_neq0.
  - rewrite y2ToGamma_fin. f_equal.
    replace (6735 * Rtrigo1.tan (g * PI / 180) / 6735)
      with (Rtrigo1.tan (g * PI / 180)) by (field; lra).
    rewrite atan_tan by lra. field. apply PI_neq0.
  - f_equal. ring.
Qed.

Lemma gamma_heights_roundtrip_witness :
  y1ToGamma (fst (fst (GammaToMotors (Fin 10)))) = Fin 10 /\
  y2ToGamma (snd (fst (GammaToMotors (Fin 10)))) = Fin 10 /\
  snd (GammaToMotors (Fin 10)) =
  Fin ((6735 - 2960) * Rtrigo1.tan (10 * PI / 180)).
Proof. apply (gamma_heights_roundtrip 10). lra. Defined.

Lemma MotorsTox_of_x (x : real) :
  MotorsTox (xTox12 (Fin x)) (xTox12 (Fin x)) (xToz (Fin x)) =
  (Fin x, Fin x, Fin x).
Proof.
  pose proof sin_alpha_pos as Hs. pose proof cos_alpha_pos as Hc.
  unfold MotorsTox, xTox12, xToz. rewrite tan_alpha_r_fin, alpha_r_fin.
  cbn [Np.sin].
  assert (Ht : Rtrigo_def.sin alpha / Rtrigo_def.cos alpha <> 0).
  { apply Rgt_not_eq. apply Rdiv_lt_0_compat; assumption. }
  rewrite !fdiv_fin by lra. cbn [fmul].
  repeat f_equal; field; lra.
Qed.

(** The horizontal conversions are inverse to each other: the rail and depth
    positions computed for a horizontal position [x] all project back to
    [x], and the two rails get the same position. *)
Theorem horizontal_roundtrip (x : real) :
  MotorsTox (xTox12 (Fin x)) (xTox12 (Fin x)) (xToz (Fin x)) =
  (Fin x, Fin x, Fin x) /\
  xTox12 (Fin x) = Fin (x / Rtrigo_def.sin alpha) /\
  xToz (Fin x) = Fin (x * Rtrigo_def.cos alpha / Rtrigo_def.sin alpha).
Proof.
  split; [apply MotorsTox_of_x |].
  pose proof sin_alpha_pos as Hs. pose proof cos_alpha_pos as Hc.
  unfold xTox12, xToz. rewrite tan_alpha_r_fin, alpha_r_fin. cbn [Np.sin].
  assert (Ht : Rtrigo_def.sin alpha / Rtrigo_def.cos alpha <> 0).
  { apply Rgt_not_eq. apply Rdiv_lt_0_compat; assumption. }
  rewrite !fdiv_fin by lra.
  split; [reflexivity | f_equal; field; lra].
Qed.

(** For angles strictly between 0 and 90 degrees the two rail targets are in
    the fixed ratio [R / r], and the depth target is
    [r / sin alpha_r - r / sin (alpha_r + theta)]. *)
Theorem ThetaToMotors_ratio (t : real) (samz_offset : float) :
  0 < t < 90 ->
  let x1 := fst (fst (ThetaToMotors (Fin t) samz_offset)) in
  let x2 := snd (fst (ThetaToMotors (Fin t) samz_offset)) in
  let dz := snd (ThetaToMotors (Fin t) samz_offset) in
  x2 = (x1 * R / r)%np /\
  dz = Fin (2960 / Rtrigo_def.sin alpha
            - 2960 / Rtrigo_def.sin (alpha + t * PI / 180)).
Proof.
  intros Ht x1 x2 dz. subst x1 x2 dz.
  rewrite ThetaToMotors_fin by assumption. cbn [fst snd].
  pose proof (rail_divisor_neq_0 t ltac:(lra)) as Hd.
  pose proof sin_alpha_pos as Hs.
  pose proof (sin_sum_pos t ltac:(lra)) as Hsum.
  assert (Hth : 0 < t * PI / 180 < PI / 2)
    by (pose proof PI_RGT_0; split; nra).
  assert (Hst : 0 < Rtrigo_def.sin (t * PI / 180))
    by (pose proof PI_RGT_0; apply sin_gt_0; lra).
  split.
  - unfold R, r. cbn [fmul]. rewrite fdiv_fin by lra.
    f_equal. field. lra.
  - f_equal. field. lra.
Qed.

Lemma ThetaToMotors_ratio_witness :
  snd (fst (ThetaToMotors (Fin 27) (Fin 0))) =
  (fst (fst (ThetaToMotors (Fin 27) (Fin 0))) * R / r)%np /\
  snd (ThetaToMotors (Fin 27) (Fin 0)) =
  Fin (2960 / Rtrigo_def.sin alpha
       - 2960 / Rtrigo_def.sin (alpha + 27 * PI / 180)).
Proof. apply (ThetaToMotors_ratio 27 (Fin 0)). lra. Defined.

(** *** The calculation table *)

(** [cos 27 degrees], the value of [alpha_cos]. *)
Lemma alpha_cos_fin : alpha_cos = Fin (Rtrigo_def.cos (27 * PI / 180)).
Proof. unfold alpha_cos. now rewrite deg_to_rad_fin. Qed.

Lemma ca_theta_fin (self : LADM) (t s : real) :
  0 < t < 90 ->
  let theta := t * PI / 180 in
  let c27 := Rtrigo_def.cos (27 * PI / 180) in
  let d := Rtrigo_def.sin alpha * Rtrigo_def.sin (alpha + theta) in
  fst (ca_theta self (Fin t) (Fin s)) =
  (Fin t,
   Fin ((2960 - s * c27) * Rtrigo_def.sin theta / d),
   Fin ((6735 - s * c27) * Rtrigo_def.sin theta / d),
   Fin ((2960 - s * c27) / Rtrigo_def.sin alpha
        - (2960 - s * c27) * Rtrigo_def.sin theta / d * Rtrigo_def.sin alpha
          / Rtrigo_def.sin theta),
   Fin s).
Proof.
  intros Ht theta c27 d. unfold ca_theta. cbn [fst].
  rewrite deg_to_rad_fin, alpha_r_fin, alpha_cos_fin. fold theta c27.
  unfold r, R. cbn [Np.sin fmul fadd fsub fneg].
  assert (Hd : d <> 0) by (apply rail_divisor_neq_0; lra).
  fold d. rewrite !fdiv_fin by assumption. cbn [fmul].
  assert (Hth : 0 < theta < PI / 2)
    by (unfold theta; pose proof PI_RGT_0; split; nra).
  assert (Hst : 0 < Rtrigo_def.sin theta)
    by (pose proof PI_RGT_0; apply sin_gt_0; lra).
  pose proof sin_alpha_pos.
  rewrite !fdiv_fin by lra. cbn [fadd fneg]. reflexivity.
Qed.

(** With no sample offset and an angle strictly between 0 and 90 degrees,
    [ca_theta] reports the rail and depth targets of [ThetaToMotors].  At
    [theta = 0] it does not: its depth value is not-a-number, where
    [ThetaToMotors] returns 0. *)
Theorem ca_theta_matches_ThetaToMotors (self : LADM) (t : real) :
  (0 < t < 90 ->
   fst (ca_theta self (Fin t) (Fin 0)) =
   (Fin t,
    fst (fst (ThetaToMotors (Fin t) (Fin 0))),
    snd (fst (ThetaToMotors (Fin t) (Fin 0))),
    snd (ThetaToMotors (Fin t) (Fin 0)),
    Fin 0)) /\
  fst (ca_theta self (Fin 0) (Fin 0)) = (Fin 0, Fin 0, Fin 0, NaN, Fin 0).
Proof.
  split.
  - intros Ht. rewrite ca_theta_fin, ThetaToMotors_fin by assumption.
    cbn [fst snd].
    replace (2960 - 0 * Rtrigo_def.cos (27 * PI / 180)) with 2960 by ring.
    replace (6735 - 0 * Rtrigo_def.cos (27 * PI / 180)) with 6735 by ring.
    reflexivity.
  - unfold ca_theta. cbn [fst].
    rewrite deg_to_rad_fin, alpha_r_fin, alpha_cos_fin.
    replace (0 * PI / 180) with 0 by lra.
    unfold r, R. cbn [Np.sin fmul fadd fsub fneg].
    rewrite sin_0, Rplus_0_r, !Rmult_0_r.
    pose proof sin_alpha_pos as Hs.
    assert (Hss : Rtrigo_def.sin alpha * Rtrigo_def.sin alpha <> 0) by nra.
    rewrite !(fdiv_fin _ (Rtrigo_def.sin alpha * Rtrigo_def.sin alpha))
      by assumption.
    cbn [fmul].
    replace (0 / (Rtrigo_def.sin alpha * Rtrigo_def.sin alpha)) with 0
      by (unfold Rdiv; ring).
    rewrite !Rmult_0_l, fdiv_zero_zero.
    rewrite fdiv_fin by lra. reflexivity.
Qed.

Lemma ca_theta_matches_ThetaToMotors_witness :
  fst (ca_theta init (Fin 27) (Fin 0)) =
  (Fin 27,
   fst (fst (ThetaToMotors (Fin 27) (Fin 0))),
   snd (fst (ThetaToMotors (Fin 27) (Fin 0))),
   snd (ThetaToMotors (Fin 27) (Fin 0)),
   Fin 0).
Proof.
  destruct (ca_theta_matches_ThetaToMotors init 27) as [H _].
  apply H. lra.
Defined.

Lemma x1ToTheta_offset_fin (x1 s : real) :
  2960 - s * Rtrigo_def.cos (27 * PI / 180)
  - x1 * Rtrigo_def.sin (2 * alpha) / 2 <> 0 ->
  x1ToTheta (Fin x1) (Fin s) =
  Fin (atan (x1 * (Rtrigo_def.sin alpha * Rtrigo_def.sin alpha)
             / (2960 - s * Rtrigo_def.cos (27 * PI / 180)
                - x1 * Rtrigo_def.sin (2 * alpha) / 2)) * 180 / PI).
Proof.
  intros Hden. unfold x1ToTheta, pow2.
  rewrite alpha_cos_fin, alpha_r_fin. unfold r.
  cbn [Np.sin Np.cos fmul fadd fsub fneg].
  rewrite (fdiv_fin _ 2) by lra. cbn [fadd fneg].
  rewrite fdiv_fin by exact Hden.
  cbn [arctan]. now rewrite rad_to_deg_fin.
Qed.

Lemma x2ToTheta_offset_fin (x2 s : real) :
  6735 - s * Rtrigo_def.cos (27 * PI / 180)
  - x2 * Rtrigo_def.sin (2 * alpha) / 2 <> 0 ->
  x2ToTheta (Fin x2) (Fin s) =
  Fin (atan (x2 * (Rtrigo_def.sin alpha * Rtrigo_def.sin alpha)
             / (6735 - s * Rtrigo_def.cos (27 * PI / 180)
                - x2 * Rtrigo_def.sin (2 * alpha) / 2)) * 180 / PI).
Proof.
  intros Hden. unfold x2ToTheta, pow2.
  rewrite alpha_cos_fin, alpha_r_fin. unfold R.
  cbn [Np.sin Np.cos fmul fadd fsub fneg].
  rewrite (fdiv_fin _ 2) by lra. cbn [fadd fneg].
  rewrite fdiv_fin by exact Hden.
  cbn [arctan]. now rewrite rad_to_deg_fin.
Qed.

(** The inverse of a rail computed for the effective radius [rho]. *)
Lemma rail_atan_deg_offset (rho t : real) :
  0 < rho -> 0 < t < 90 ->
  let x := rho * Rtrigo_def.sin (t * PI / 180)
           / (Rtrigo_def.sin alpha * Rtrigo_def.sin (alpha + t * PI / 180)) in
  rho - x * Rtrigo_def.sin (2 * alpha) / 2 <> 0 /\
  atan (x * (Rtrigo_def.sin alpha * Rtrigo_def.sin alpha)
        / (rho - x * Rtrigo_def.sin (2 * alpha) / 2)) * 180 / PI = t.
Proof.
  intros Hrho Ht x.
  assert (Ht' : 0 <= t < 90) by lra.
  pose proof (rail_den_pos rho t Hrho Ht') as Hpos.
  pose proof (rail_atan_deg rho t Hrho Ht') as Hinv.
  fold x in Hpos, Hinv.
  replace (rho - 0 * Rtrigo_def.cos (27 * PI / 180)
           - x * Rtrigo_def.sin (2 * alpha) / 2)
    with (rho - x * Rtrigo_def.sin (2 * alpha) / 2) in Hpos, Hinv by ring.
  split; [lra | exact Hinv].
Qed.

(** Rails with a sample offset and back: when the sample offset [s] leaves
    the short radius positive ([s * cos 27 < r]), the rail positions that
    [ca_theta] computes for an angle strictly between 0 and 90 degrees are
    inverted to that angle by [x1ToTheta] and [x2ToTheta] with the same
    offset. *)
Theorem ca_theta_rails_roundtrip (self : LADM) (t s : real) :
  0 < t < 90 ->
  s * Rtrigo_def.cos (27 * PI / 180) < 2960 ->
  let row := fst (ca_theta self (Fin t) (Fin s)) in
  let cal_x1 := snd (fst (fst (fst row))) in
  let cal_x2 := snd (fst (fst row)) in
  x1ToTheta cal_x1 (Fin s) = Fin t /\
  x2ToTheta cal_x2 (Fin s) = Fin t.
Proof.
  intros Ht Hs row cal_x1 cal_x2. subst cal_x1 cal_x2 row.
  rewrite ca_theta_fin by assumption. cbn [fst snd].
  set (c27 := Rtrigo_def.cos (27 * PI / 180)) in *.
  split.
  - destruct (rail_atan_deg_offset (2960 - s * c27) t ltac:(lra) Ht)
      as [Hden Hinv].
    rewrite x1ToTheta_offset_fin by (fold c27; exact Hden).
    fold c27. f_equal. exact Hinv.
  - destruct (rail_atan_deg_offset (6735 - s * c27) t ltac:(lra) Ht)
      as [Hden Hinv].
    rewrite x2ToTheta_offset_fin by (fold c27; exact Hden).
    fold c27. f_equal. exact Hinv.
Qed.

Lemma ca_theta_rails_roundtrip_witness :
  x1ToTheta (snd (fst (fst (fst (fst (ca_theta init (Fin 27) (Fin 100)))))))
            (Fin 100) = Fin 27 /\
  x2ToTheta (snd (fst (fst (fst (ca_theta init (Fin 27) (Fin 100))))))
            (Fin 100) = Fin 27.
Proof.
  apply (ca_theta_rails_roundtrip init 27 100); [lra |].
  pose proof (COS_bound (27 * PI / 180)) as [_ Hc]. nra.
Defined.

(** ** ladm.py: the controller *)

Lemma feq_sym (a b : float) : feq a b = feq b a.
Proof.
  destruct a as [x | | |], b as [y | | |]; try reflexivity.
  unfold feq. destruct (Req_dec_T x y), (Req_dec_T y x); congruence.
Qed.

Lemma feq_fle (a b : float) : feq a b = true -> fle a b = true.
Proof. unfold fle. intros ->. apply orb_true_r. Qed.



Section ControllerExtra.

Context {world : Type} {axes : Axes world}.

(** [moveX] before the limits are set: the comparison with [None] raises
    [TypeError] and nothing is commanded.  With only the low limit set, a
    target at or below it takes the refusal path, because [or] does not look
    at the high limit then (a log entry when [XT] is attached,
    [AttributeError] when it is not); any other target raises [TypeError]. *)
Theorem moveX_unset_limits (self : LADM) (x : float) (w : world) :
  (lowlimX self = None -> moveX self x w = (Raise TypeError, w, [])) /\
  (forall lowlim : float,
      lowlimX self = Some lowlim -> hilimX self = None ->
      ((x <=? lowlim)%np = true ->
       (forall name : String.string, XT self = Some name ->
          moveX self x w = (Ok tt, w, [LogDebug (MsgOutsideLimit name)])) /\
       (XT self = None -> moveX self x w = (Raise AttributeError, w, []))) /\
      ((x <=? lowlim)%np = false ->
       moveX self x w = (Raise TypeError, w, []))).
Proof.
  split.
  - intros Hlo. unfold moveX. now rewrite Hlo.
  - intros lowlim Hlo Hhi. split.
    + intros Hle.
      rewrite (moveX_refusal self lowlim x w Hlo (or_introl Hle)).
      split.
      * intros name ->. reflexivity.
      * intros ->. reflexivity.
    + intros Hcmp. unfold moveX. rewrite Hlo, Hhi, Hcmp. reflexivity.
Qed.

(** The limits themselves count as outside: a target equal to the low or to
    the high limit takes the refusal path, so that no axis is commanded; with
    [XT] attached the refusal is logged and [moveX] returns, with [XT] still
    [None] it raises [AttributeError]. *)
Theorem moveX_refuses_limit_values (self : LADM) (lowlim hilim x : float)
  (w : world) :
  lowlimX self = Some lowlim ->
  hilimX self = Some hilim ->
  (x ==? lowlim)%np = true \/ (x ==? hilim)%np = true ->
  axis_calls (calls (moveX self x w)) = [] /\
  final (moveX self x w) = w /\
  (forall name : String.string, XT self = Some name ->
     moveX self x w = (Ok tt, w, [LogDebug (MsgOutsideLimit name)])) /\
  (XT self = None -> moveX self x w = (Raise AttributeError, w, [])).
Proof.
  intros Hlo Hhi Heq.
  rewrite (moveX_refusal self lowlim x w Hlo).
  2:{ destruct Heq as [Heq | Heq].
      - left. apply feq_fle. exact Heq.
      - right. exists hilim. split; [exact Hhi |].
        unfold fge. apply feq_fle. rewrite feq_sym. exact Heq. }
  destruct (XT self) as [name |].
  - repeat (split; [reflexivity |]). split.
    + now intros name' [= <-].
    + discriminate.
  - repeat (split; [reflexivity |]). split.
    + discriminate.
    + reflexivity.
Qed.

(** A target that passes the limit check (neither [x <= lowlimX] nor
    [x >= hilimX] holds, which is also the case for not-a-number) moves z
    first and then x1 and x2 when the z target is above the current z;
    otherwise it moves x1 and x2, waits for both and commands no z move at
    all. *)
Theorem moveX_inside_window (self : LADM) (lowlim hilim x : float)
  (w : world) :
  lowlimX self = Some lowlim ->
  hilimX self = Some hilim ->
  (x <=? lowlim)%np = false ->
  (x >=? hilim)%np = false ->
  outcome (moveX self x w) = Ok tt /\
  ((xToz x >? ax_wm Z w)%np = true ->
   axis_calls (calls (moveX self x w)) =
   [Mv Z (xToz x); Wait Z; Mv X1 (xTox12 x); Mv X2 (xTox12 x)]) /\
  ((xToz x >? ax_wm Z w)%np = false ->
   axis_calls (calls (moveX self x w)) =
   [Mv X1 (xTox12 x); Mv X2 (xTox12 x); Wait X1; Wait X2] /\
   forall target : float, ~ In (Mv Z target) (calls (moveX self x w))).
Proof.
  intros Hlo Hhi Hle Hge. unfold moveX. rewrite Hlo, Hle, Hhi.
  cbv [bind ret wm print emit mv wait logger_debug]. rewrite Hge.
  destruct (fgt (xToz x) (ax_wm Z w)).
  - split; [reflexivity |]. split; [reflexivity | discriminate].
  - split; [reflexivity |]. split; [discriminate |].
    intros _. split; [reflexivity |].
    intros target H. cbn [app In] in H.
    repeat (destruct H as [H | H]; [discriminate H |]). exact H.
Qed.

(** The order of the relative move: when the z target is above the current
    z, z is moved (by the difference to its target) and waited for before x1
    and x2; otherwise x1 and x2 are moved and waited for before z. *)
Theorem tweakH_order (self : LADM) (x : float) (w : world) :
  let z_var := xToz x in
  let z_now := ax_wm Z w in
  ((z_var >? z_now)%np = true ->
   axis_calls (calls (tweakH self x w)) =
   [Mvr Z (z_var - z_now)%np; Wait Z;
    Mvr X1 (xTox12 x); Mvr X2 (xTox12 x)]) /\
  ((z_var <=? z_now)%np = true ->
   axis_calls (calls (tweakH self x w)) =
   [Mvr X1 (xTox12 x); Mvr X2 (xTox12 x); Wait X1; Wait X2;
    Mvr Z (z_var - z_now)%np]).
Proof.
  intros z_var z_now. unfold tweakH.
  cbv [bind wm print emit mvr wait]. fold z_var z_now.
  split.
  - intros Hgt. rewrite Hgt. reflexivity.
  - intros Hle. apply fle_not_flt in Hle. unfold fgt. rewrite Hle.
    reflexivity.
Qed.

(** With the [np.nan] object as current theta, [moveTheta] commands nothing
    for any target: it prints the reading and returns the advisory text. *)
Theorem moveTheta_undefined_commands_nothing (self : LADM)
  (theta samz_offset : float) (w : world) :
  ax_theta_position w = NanObject ->
  final (moveTheta self theta samz_offset w) = w /\
  calls (moveTheta self theta samz_offset w) = [Print (MsgPosition NanObject)] /\
  exists m : message,
    outcome (moveTheta self theta samz_offset w) = Ok (Some m).
Proof.
  intros Hpos. unfold moveTheta.
  cbv [bind theta_position print emit wm ret]. rewrite Hpos.
  destruct (ThetaToMotors (x1ToTheta (ax_wm X1 w) samz_offset) (Fin 0))
    as [[x1_th1 x2_th1] z_th1].
  destruct (ThetaToMotors (x2ToTheta (ax_wm X2 w) samz_offset) (Fin 0))
    as [[x1_th2 x2_th2] z_th2].
  cbn [outcome final calls fst snd app].
  split; [reflexivity |]. split; [reflexivity |].
  eexists. reflexivity.
Qed.



Context {deadbands : Deadbands world}.

(** What [wmX] hands back is the horizontal projection of x1 or the [np.nan]
    object, never a value taken from x2 or z; it makes no call.  With a z
    deadband of zero the strict comparison never holds and the readback is
    always the [np.nan] object. *)
Theorem wmX_projection_or_nan (self : LADM) (w : world) :
  (wmX self w = (Ok (Value (ax_wm X1 w * Np.sin alpha_r)%np), w, []) \/
   wmX self w = (Ok NanObject, w, [])) /\
  (ax_rdbd Z w = Fin 0 -> wmX self w = (Ok NanObject, w, [])).
Proof.
  unfold wmX. cbv [bind wm rdbd ret MotorsTox].
  split.
  - destruct (fle _ _); [| now right].
    destruct (flt _ _); [now left | now right].
  - intros Hdz.
    destruct (fle _ _); [| reflexivity].
    cbv beta. rewrite Hdz. cbn [fmul].
    assert (Hnever : forall a : float, flt (fabs a) (Fin (2 * 0)) = false).
    { intros [v | | |]; try reflexivity.
      cbn [fabs]. apply flt_fin_false. rewrite Rmult_0_r. apply Rabs_pos. }
    now rewrite Hnever.
Qed.

End ControllerExtra.

Lemma xTox12_fin (x : real) : xTox12 (Fin x) = Fin (x / Rtrigo_def.sin alpha).
Proof.
  pose proof sin_alpha_pos. unfold xTox12. rewrite alpha_r_fin. cbn [Np.sin].
  now rewrite fdiv_fin by lra.
Qed.

Lemma xToz_fin (x : real) :
  xToz (Fin x) = Fin (x * Rtrigo_def.cos alpha / Rtrigo_def.sin alpha).
Proof.
  pose proof sin_alpha_pos as Hs. pose proof cos_alpha_pos as Hc.
  unfold xToz. rewrite tan_alpha_r_fin.
  assert (Ht : Rtrigo_def.sin alpha / Rtrigo_def.cos alpha <> 0).
  { apply Rgt_not_eq. apply Rdiv_lt_0_compat; assumption. }
  rewrite fdiv_fin by exact Ht. f_equal. field. lra.
Qed.

Section HorizontalExtra.

Context {world : Type} {axes : Axes world} {deadbands : Deadbands world}.

(** When x1, x2 and z stand at the positions that belong to the horizontal
    position [x], the combined x deadband is not negative and the z deadband
    is positive, [wmX] reads back [x]. *)
Theorem wmX_reads_back (self : LADM) (w : world) (x d1 d2 dz : real) :
  ax_wm X1 w = xTox12 (Fin x) ->
  ax_wm X2 w = xTox12 (Fin x) ->
  ax_wm Z w = xToz (Fin x) ->
  ax_rdbd X1 w = Fin d1 ->
  ax_rdbd X2 w = Fin d2 ->
  ax_rdbd Z w = Fin dz ->
  0 <= d1 + d2 ->
  0 < dz ->
  wmX self w = (Ok (Value (Fin x)), w, []).
Proof.
  intros H1 H2 H3 Hd1 Hd2 Hdz Hx Hz. unfold wmX.
  cbv [bind wm rdbd ret]. rewrite H1, H2, H3, MotorsTox_of_x, Hd1, Hd2.
  cbn [fsub fneg fadd fabs].
  replace (fle (Fin (Rabs (x + - x))) (Fin (d1 + d2))) with true.
  2:{ symmetry. apply fle_fin.
      replace (x + - x) with 0 by ring. now rewrite Rabs_R0. }
  cbv beta. rewrite Hdz, xToz_fin. cbn [fsub fneg fadd fabs fmul].
  replace (flt _ _) with true; [reflexivity |].
  symmetry. apply flt_fin.
  match goal with |- Rabs ?e < _ => replace e with 0 by ring end.
  rewrite Rabs_R0. lra.
Qed.

End HorizontalExtra.

(** *** On the stub, whose axes reach every target *)

(** After [tweakH], x1 and x2 have moved by [x / sin alpha_r] from where
    they were, while z stands at the absolute position [x / tan alpha_r]
    whatever it was before; y1 and y2 are untouched. *)
Theorem tweakH_stub_positions (self : LADM) (x a b c : real) (w : stub) :
  pos w X1 = Fin a ->
  pos w X2 = Fin b ->
  pos w Z = Fin c ->
  let w' := final (tweakH self (Fin x) w) in
  pos w' X1 = Fin (a + x / Rtrigo_def.sin alpha) /\
  pos w' X2 = Fin (b + x / Rtrigo_def.sin alpha) /\
  pos w' Z = Fin (x * Rtrigo_def.cos alpha / Rtrigo_def.sin alpha) /\
  pos w' Y1 = pos w Y1 /\
  pos w' Y2 = pos w Y2.
Proof.
  intros Ha Hb Hc w'. subst w'. unfold tweakH.
  cbv [bind wm print emit mvr wait ax_mvr ax_wm ax_wait stub_axes].
  destruct (fgt (xToz (Fin x)) (pos w Z));
    cbn [final fst snd stub_set pos axis_eqb];
    rewrite Ha, Hb, Hc, xTox12_fin, xToz_fin;
    cbn [fsub fneg fadd];
    repeat split; f_equal; ring.
Qed.

Lemma tweakH_stub_positions_witness :
  pos (final (tweakH init (Fin 10) (stub_at (Fin 5) NanObject))) Z =
  Fin (10 * Rtrigo_def.cos alpha / Rtrigo_def.sin alpha).
Proof.
  destruct (tweakH_stub_positions init 10 5 5 5 (stub_at (Fin 5) NanObject)
              eq_refl eq_refl eq_refl) as [_ [_ [Hz _]]].
  exact Hz.
Defined.

Lemma theta_movement_stub_final (self : LADM) (theta samz_offset : float)
  (w : stub) :
  let run := theta_movement self theta samz_offset w in
  pos (final run) X1 = fst (fst (ThetaToMotors theta samz_offset)) /\
  pos (final run) X2 = snd (fst (ThetaToMotors theta samz_offset)) /\
  pos (final run) Z = snd (ThetaToMotors theta samz_offset) /\
  exists before after : list event,
    calls run =
    before ++
    [ThetaPvPut
       (if (fabs (x1ToTheta (fst (fst (ThetaToMotors theta samz_offset))) (Fin 0)
                  - x2ToTheta (snd (fst (ThetaToMotors theta samz_offset)))
                      (Fin 0)) <? Fin 0.01)%np
        then Angle (x1ToTheta (fst (fst (ThetaToMotors theta samz_offset)))
                      (Fin 0))
        else Undefined)] ++ after /\
    after = [] /\
    forall v : readback, ~ In (ThetaPvPut v) before.
Proof.
  intros run. subst run. unfold theta_movement.
  destruct (ThetaToMotors theta samz_offset) as [[x1_var x2_var] z_var].
  cbn [fst snd].
  cbv [bind wm print emit mv wait waitAll theta_pv_put].
  destruct (flt (ax_wm Z w) z_var);
    rewrite (wmTheta_no_offset _ _ _ zero_not_gt_zero);
    cbn [final calls fst snd ax_mv ax_wm ax_wait ax_theta_pv_put stub_axes
         stub_set pos axis_eqb app];
    (split; [reflexivity |]); (split; [reflexivity |]);
    (split; [reflexivity |]).
  - exists [Print (MsgMovingZ z_var); Mv Z z_var; Wait Z; Print MsgDone;
            Print (MsgMovingX x1_var x2_var); Mv X1 x1_var; Mv X2 x2_var;
            Wait Z; Wait X1; Wait X2; Print MsgDone], [].
    split; [reflexivity |]. split; [reflexivity |].
    intros v H. cbn [In] in H.
    repeat (destruct H as [H | H]; [discriminate H |]). exact H.
  - exists [Print (MsgMovingX x1_var x2_var); Mv X1 x1_var; Mv X2 x2_var;
            Wait X1; Wait X2; Print (MsgMovingZ z_var); Mv Z z_var;
            Wait Z; Wait X1; Wait X2; Print MsgDone], [].
    split; [reflexivity |]. split; [reflexivity |].
    intros v H. cbn [In] in H.
    repeat (destruct H as [H | H]; [discriminate H |]). exact H.
Qed.

(** A sequenced theta move to an angle strictly between 0 and 90 degrees
    leaves x1, x2 and z at the targets of [ThetaToMotors], and the one value
    it publishes to the theta signal, as its last call, is that angle: the
    readback of the reached rails agrees with the target. *)
Theorem theta_movement_publishes_target (self : LADM) (t : real)
  (samz_offset : float) (w : stub) :
  0 < t < 90 ->
  let run := theta_movement self (Fin t) samz_offset w in
  pos (final run) X1 = fst (fst (ThetaToMotors (Fin t) samz_offset)) /\
  pos (final run) X2 = snd (fst (ThetaToMotors (Fin t) samz_offset)) /\
  pos (final run) Z = snd (ThetaToMotors (Fin t) samz_offset) /\
  exists before : list event,
    calls run = before ++ [ThetaPvPut (Angle (Fin t))] /\
    forall v : readback, ~ In (ThetaPvPut v) before.
Proof.
  intros Ht run.
  destruct (theta_movement_stub_final self (Fin t) samz_offset w)
    as [H1 [H2 [H3 [before [after [Hcalls [-> Hnot]]]]]]].
  fold run in H1, H2, H3, Hcalls.
  split; [exact H1 |]. split; [exact H2 |]. split; [exact H3 |].
  exists before. split; [| exact Hnot].
  rewrite Hcalls. do 2 f_equal.
  destruct (rails_invert t Ht) as [Hx1 Hx2].
  change (ThetaToMotors (Fin t) (Fin 0))
    with (ThetaToMotors (Fin t) samz_offset) in Hx1, Hx2.
  rewrite Hx1, Hx2. cbn [fsub fneg fadd fabs].
  replace (flt _ _) with true; [reflexivity |].
  symmetry. apply flt_fin.
  replace (t + - t) with 0 by ring. rewrite Rabs_R0. lra.
Qed.

Lemma theta_movement_publishes_target_witness :
  exists before : list event,
    calls (theta_movement init (Fin 27) (Fin 0) (stub_at (Fin 0) NanObject)) =
    before ++ [ThetaPvPut (Angle (Fin 27))] /\
    forall v : readback, ~ In (ThetaPvPut v) before.
Proof.
  destruct (theta_movement_publishes_target init 27 (Fin 0)
              (stub_at (Fin 0) NanObject)) as [_ [_ [_ H]]].
  - lra.
  - exact H.
Defined.

(** *** Instances *)

Lemma moveX_unset_limits_witness :
  moveX init (Fin 1) (stub_at (Fin 0) NanObject) =
  (Raise TypeError, stub_at (Fin 0) NanObject, []) /\
  moveX (_set_lowlimX attached (Fin 0)) (Fin (-1))
        (stub_at (Fin 0) NanObject) =
  (Ok tt, stub_at (Fin 0) NanObject,
   [LogDebug (MsgOutsideLimit StubName.XT_name)]) /\
  moveX (_set_lowlimX init (Fin 0)) (Fin (-1)) (stub_at (Fin 0) NanObject) =
  (Raise AttributeError, stub_at (Fin 0) NanObject, []) /\
  moveX (_set_lowlimX init (Fin 0)) (Fin 1) (stub_at (Fin 0) NanObject) =
  (Raise TypeError, stub_at (Fin 0) NanObject, []).
Proof.
  assert (Hle : (Fin (-1) <=? Fin 0)%np = true) by (apply fle_fin; lra).
  split; [| split; [| split]].
  - destruct (moveX_unset_limits init (Fin 1) (stub_at (Fin 0) NanObject))
      as [H _].
    apply H. reflexivity.
  - destruct (moveX_unset_limits (_set_lowlimX attached (Fin 0)) (Fin (-1))
                (stub_at (Fin 0) NanObject)) as [_ H].
    destruct (H (Fin 0) eq_refl eq_refl) as [Hrefuse _].
    destruct (Hrefuse Hle) as [Hlog _].
    apply Hlog. reflexivity.
  - destruct (moveX_unset_limits (_set_lowlimX init (Fin 0)) (Fin (-1))
                (stub_at (Fin 0) NanObject)) as [_ H].
    destruct (H (Fin 0) eq_refl eq_refl) as [Hrefuse _].
    destruct (Hrefuse Hle) as [_ Hraise].
    apply Hraise. reflexivity.
  - destruct (moveX_unset_limits (_set_lowlimX init (Fin 0)) (Fin 1)
                (stub_at (Fin 0) NanObject)) as [_ H].
    destruct (H (Fin 0) eq_refl eq_refl) as [_ Hgt].
    apply Hgt. apply fle_fin_false. lra.
Defined.

Lemma moveX_refuses_limit_values_witness :
  moveX (_set_hilimX (_set_lowlimX attached (Fin 0)) (Fin 10)) (Fin 10)
        (stub_at (Fin 0) NanObject) =
  (Ok tt, stub_at (Fin 0) NanObject,
   [LogDebug (MsgOutsideLimit StubName.XT_name)]) /\
  moveX (_set_hilimX (_set_lowlimX init (Fin 0)) (Fin 10)) (Fin 10)
        (stub_at (Fin 0) NanObject) =
  (Raise AttributeError, stub_at (Fin 0) NanObject, []).
Proof.
  assert (Heq : (Fin 10 ==? Fin 0)%np = true \/ (Fin 10 ==? Fin 10)%np = true)
    by (right; apply feq_fin; reflexivity).
  split.
  - destruct (moveX_refuses_limit_values
                (_set_hilimX (_set_lowlimX attached (Fin 0)) (Fin 10))
                (Fin 0) (Fin 10) (Fin 10) (stub_at (Fin 0) NanObject)
                eq_refl eq_refl Heq) as [_ [_ [Hlog _]]].
    apply Hlog. reflexivity.
  - destruct (moveX_refuses_limit_values
                (_set_hilimX (_set_lowlimX init (Fin 0)) (Fin 10))
                (Fin 0) (Fin 10) (Fin 10) (stub_at (Fin 0) NanObject)
                eq_refl eq_refl Heq) as [_ [_ [_ Hraise]]].
    apply Hraise. reflexivity.
Defined.

Lemma moveX_inside_window_witness :
  let self := _set_hilimX (_set_lowlimX init (Fin 0)) (Fin 10) in
  let w := stub_at (Fin 100) NanObject in
  axis_calls (calls (moveX self (Fin 5) w)) =
  [Mv X1 (xTox12 (Fin 5)); Mv X2 (xTox12 (Fin 5)); Wait X1; Wait X2] /\
  forall target : float, ~ In (Mv Z target) (calls (moveX self (Fin 5) w)).
Proof.
  intros self w.
  destruct (moveX_inside_window self (Fin 0) (Fin 10) (Fin 5) w
              eq_refl eq_refl) as [_ [_ H]].
  - apply fle_fin_false. lra.
  - unfold fge. apply fle_fin_false. lra.
  - apply H. unfold fgt.
    cbn [ax_wm stub_axes w stub_at pos]. rewrite xToz_fin.
    apply flt_fin_false.
    pose proof sin_alpha_pos as Hs. pose proof cos_alpha_pos as Hc.
    pose proof (SIN_bound alpha) as [_ Hs1].
    pose proof (COS_bound alpha) as [_ Hc1].
    assert (Hsin : 1 / 2 < Rtrigo_def.sin alpha).
    { unfold alpha. rewrite <- sin_PI6.
      pose proof PI_RGT_0.
      apply sin_increasing_1; lra. }
    apply Rmult_le_reg_r with (Rtrigo_def.sin alpha); [exact Hs |].
    unfold Rdiv. rewrite Rmult_assoc, Rinv_l by lra. lra.
Defined.

Lemma tweakH_order_witness :
  axis_calls (calls (tweakH init (Fin 0) (stub_at (Fin 1) NanObject))) =
  [Mvr X1 (xTox12 (Fin 0)); Mvr X2 (xTox12 (Fin 0)); Wait X1; Wait X2;
   Mvr Z (xToz (Fin 0) - Fin 1)%np].
Proof.
  destruct (tweakH_order init (Fin 0) (stub_at (Fin 1) NanObject))
    as [_ H].
  apply H. cbn [ax_wm stub_axes stub_at pos]. rewrite xToz_fin.
  apply fle_fin. unfold Rdiv. rewrite !Rmult_0_l. lra.
Defined.

Lemma moveTheta_undefined_commands_nothing_witness :
  calls (moveTheta init (Fin 40) (Fin 0) (stub_at (Fin 0) NanObject)) =
  [Print (MsgPosition NanObject)].
Proof.
  destruct (moveTheta_undefined_commands_nothing init (Fin 40) (Fin 0)
              (stub_at (Fin 0) NanObject)) as [_ [H _]].
  - reflexivity.
  - exact H.
Defined.


Lemma wmX_projection_or_nan_witness :
  @wmX stub stub_axes (stub_deadbands (Fin 0)) init (stub_at (Fin 0) NanObject)
  = (Ok NanObject, stub_at (Fin 0) NanObject, []).
Proof.
  destruct (@wmX_projection_or_nan stub stub_axes (stub_deadbands (Fin 0))
              init (stub_at (Fin 0) NanObject)) as [_ H].
  apply H. reflexivity.
Defined.

Lemma wmX_reads_back_witness :
  @wmX stub stub_axes (stub_deadbands (Fin 1)) init (stub_at (Fin 0) NanObject)
  = (Ok (Value (Fin 0)), stub_at (Fin 0) NanObject, []).
Proof.
  apply (@wmX_reads_back stub stub_axes (stub_deadbands (Fin 1)) init
           (stub_at (Fin 0) NanObject) 0 1 1 1).
  - cbn [ax_wm stub_axes stub_at pos]. rewrite xTox12_fin. f_equal.
    unfold Rdiv. ring.
  - cbn [ax_wm stub_axes stub_at pos]. rewrite xTox12_fin. f_equal.
    unfold Rdiv. ring.
  - cbn [ax_wm stub_axes stub_at pos]. rewrite xToz_fin. f_equal.
    unfold Rdiv. ring.
  - reflexivity.
  - reflexivity.
  - reflexivity.
  - lra.
  - lra.
Defined.

End LadmExtra.
